(** * Shallow embedding of the organisation license scanner (src/index.ts)

    The scanner walks the SBOM of every repository of an organisation,
    resolves a license for each dependency, files the offending packages
    in two aggregation maps and renders them as sorted arrays.

    JavaScript values are embedded as follows.
    - A [string | undefined] value is an [option string]; the truthiness
      test the source applies to such values is [truthy].
    - A [Map] is an association list in insertion order ([JsMap]): the
      source iterates its maps with [Array.from], so insertion order is
      observable.
    - Objects mutated in place are threaded through the functions that
      mutate them.
    - What the script obtains from its runtime (the npm registry behind
      [packageJson], [RegExp.prototype.test], [String.prototype.localeCompare],
      the MD5 digest) is a [Variable] of the section that uses it. *)

From Stdlib Require Import List String Bool Arith Lia Permutation Sorted.
From Stdlib Require Import OrderedTypeEx.
Import ListNotations.
Open Scope string_scope.
Open Scope list_scope.

Set Implicit Arguments.

(** ** JavaScript helpers *)

(** [x ?? d] on a possibly undefined value. *)
Definition orElse {A : Type} (x : option A) (d : A) : A :=
  match x with Some a => a | None => d end.

(** Truthiness of a [string | undefined]: undefined and the empty string are
    falsy. *)
Definition truthy (s : option string) : bool :=
  match s with
  | Some x => negb (x =? "")
  | None => false
  end.

(** [a === b] on [string | undefined]. *)
Definition strictEq (a b : option string) : bool :=
  match a, b with
  | Some x, Some y => x =? y
  | None, None => true
  | _, _ => false
  end.

(** ** Insertion-ordered maps with string keys *)

Module JsMap.

Definition t (V : Type) : Type := list (string * V).

Section Ops.
Context {V : Type}.

Definition empty : t V := [].

Fixpoint get (k : string) (m : t V) : option V :=
  match m with
  | [] => None
  | (k', v) :: rest => if k' =? k then Some v else get k rest
  end.

Definition has (k : string) (m : t V) : bool :=
  match get k m with Some _ => true | None => false end.

(** [set] overwrites the value of a key that is present, keeping its place,
    and appends a key that is new. *)
Fixpoint set (k : string) (v : V) (m : t V) : t V :=
  match m with
  | [] => [(k, v)]
  | (k', v') :: rest =>
      if k' =? k then (k, v) :: rest else (k', v') :: set k v rest
  end.

Definition keys (m : t V) : list string := map fst m.

End Ops.

End JsMap.

(** ** Stable sorting with a comparator

    [Array.prototype.sort] is stable and, for a consistent comparator,
    returns the sorted arrangement that keeps equal elements in their
    original order.  Insertion from the right computes that arrangement. *)

Section Sort.
Context {A : Type}.
Variable compareFn : A -> A -> comparison.

Fixpoint insertSorted (x : A) (l : list A) : list A :=
  match l with
  | [] => [x]
  | y :: rest =>
      match compareFn x y with
      | Gt => y :: insertSorted x rest
      | _ => x :: l
      end
  end.

Fixpoint sortBy (l : list A) : list A :=
  match l with
  | [] => []
  | x :: rest => insertSorted x (sortBy rest)
  end.

End Sort.

(** ** The SBOM document returned by the dependency-graph endpoint *)

Module Sbom.

Record Relationship : Type := {
  spdxElementId : option string;
  relatedSpdxElement : option string
}.

Record Package : Type := {
  SPDXID : option string;
  name : option string;
  versionInfo : string;
  licenseConcluded : option string
}.

(** [packages] is optional here so that a response without a package list,
    on which [packages.reduce] throws, can be expressed. *)
Record t : Type := {
  relationships : option (list Relationship);
  packages : option (list Package)
}.

End Sbom.

(** ** [0] Types *)

Module PackageData.

(** The interface [PackageData] as declared. *)
Record t : Type := {
  name : string;
  isTransitiveDep : bool;
  version : string;
  resolveMode : string;
  license : string
}.

End PackageData.

Module Resolved.

(** The object the callback of step [5c] returns.  The source casts it to
    [PackageData] unchecked; its [license] is whatever the resolver gave,
    which may be undefined. *)
Record t : Type := {
  name : string;
  isTransitiveDep : bool;
  version : string;
  license : option string;
  resolveMode : string
}.

End Resolved.

Module Mapped.

(** [MappedPackageData]. *)
Record t : Type := {
  repo : string;
  resolveMode : string;
  isTransitiveDep : bool
}.

End Mapped.

Definition PackageDataMap : Type :=
  JsMap.t (JsMap.t (JsMap.t (list Mapped.t))).

Module RepoResult.

Record t : Type := {
  repo : string;
  packages : list Resolved.t
}.

End RepoResult.

(** ** [0] Utility: license resolution against the npm registry *)

Module Npm.

(** The part of the registry metadata the script reads. *)
Record Metadata : Type := { license : option string }.

(** A registry query: package name and requested version, if any. *)
Definition Query : Type := (string * option string)%type.

(** A computation that may query the registry: its value and the queries it
    sent, in order. *)
Definition Io (A : Type) : Type := (A * list Query)%type.

Definition ret {A : Type} (a : A) : Io A := (a, []).

Definition bind {A B : Type} (m : Io A) (f : A -> Io B) : Io B :=
  let '(a, sent) := m in
  let '(b, sent') := f a in
  (b, sent ++ sent').

Definition value {A : Type} (m : Io A) : A := fst m.
Definition queries {A : Type} (m : Io A) : list Query := snd m.

Record Resolution : Type := {
  resolveMode : string;
  resolvedLicense : option string
}.

End Npm.

Notation "x <- m ;; k" := (Npm.bind m (fun x => k))
  (at level 61, m at next level, right associativity).

Section Resolver.

(** [packageJson(name, {fullMetadata: true, version})]: [Some] metadata when
    the promise resolves, [None] when it rejects. *)
Variable packageJson : string -> option string -> option Npm.Metadata.

Definition fetchMetadata (pkgName : string) (version : option string)
  : Npm.Io (option Npm.Metadata) :=
  (packageJson pkgName version, [(pkgName, version)]).

Definition resolveLicenseFromNPM (pkgName : string) (version : option string)
  : Npm.Io Npm.Resolution :=
  current <- fetchMetadata pkgName version ;;
  match current with
  | Some md =>
      Npm.ret {| Npm.resolveMode := "npmCurrVer";
                 Npm.resolvedLicense := Npm.license md |}
  | None =>
      latest <- fetchMetadata pkgName None ;;
      match latest with
      | Some md =>
          Npm.ret {| Npm.resolveMode := "npmLatestVer";
                     Npm.resolvedLicense := Npm.license md |}
      | None =>
          Npm.ret {| Npm.resolveMode := "failed";
                     Npm.resolvedLicense := Some "non-NPM" |}
      end
  end.

End Resolver.

(** ** Step [5b]: direct or transitive *)

(** Body of the reduce that builds the relationship map: an edge is kept
    when both ids are truthy and its source is not yet a key. *)
Definition relationshipStep (map : JsMap.t string) (e : Sbom.Relationship)
  : JsMap.t string :=
  match Sbom.spdxElementId e, Sbom.relatedSpdxElement e with
  | Some src, Some tgt =>
      if truthy (Some src) && truthy (Some tgt) && negb (JsMap.has src map)
      then JsMap.set src tgt map
      else map
  | _, _ => map
  end.

Definition relationshipMap (relationships : option (list Sbom.Relationship))
  : JsMap.t string :=
  fold_left relationshipStep (orElse relationships []) JsMap.empty.

(** [if (!pkg.SPDXID) pkg.SPDXID = "NOTFOUND"]: the package object after the
    assignment. *)
Definition withSpdxId (pkg : Sbom.Package) : Sbom.Package :=
  if truthy (Sbom.SPDXID pkg) then pkg
  else {| Sbom.SPDXID := Some "NOTFOUND";
          Sbom.name := Sbom.name pkg;
          Sbom.versionInfo := Sbom.versionInfo pkg;
          Sbom.licenseConcluded := Sbom.licenseConcluded pkg |}.

(** Body of the reduce that separates the product from its dependencies.
    The accumulator is the pair [(deps, mainSpdxId)]. *)
Definition splitStep (acc : list Sbom.Package * string) (pkg0 : Sbom.Package)
  : list Sbom.Package * string :=
  let '(deps, mainSpdxId) := acc in
  let pkg := withSpdxId pkg0 in
  if negb (Sbom.versionInfo pkg =? "main")
  then (deps ++ [pkg], mainSpdxId)
  else (deps, orElse (Sbom.SPDXID pkg) "").

Definition splitPackages (packages : list Sbom.Package)
  : list Sbom.Package * string :=
  fold_left splitStep packages ([], "").

(** [relationshipMap.get(SPDXID ?? "") !== mainSpdxId]. *)
Definition isTransitiveDepOf (relMap : JsMap.t string) (mainSpdxId : string)
  (spdxId : option string) : bool :=
  negb (strictEq (JsMap.get (orElse spdxId "") relMap) (Some mainSpdxId)).

(** ** Step [5c]: one dependency per name, then its license *)

Record UniqueState : Type := {
  uniqueDepNames : list string;
  uniqueDeps : list Sbom.Package
}.

Definition setHas (s : string) (l : list string) : bool :=
  existsb (String.eqb s) l.

Definition uniqueStep (state : UniqueState) (current : Sbom.Package)
  : UniqueState :=
  match Sbom.name current with
  | Some n =>
      if truthy (Some n) && negb (setHas n (uniqueDepNames state))
      then {| uniqueDepNames := uniqueDepNames state ++ [n];
              uniqueDeps := uniqueDeps state ++ [current] |}
      else state
  | None => state
  end.

Definition uniqueDepsOf (deps : list Sbom.Package) : list Sbom.Package :=
  uniqueDeps
    (fold_left uniqueStep deps {| uniqueDepNames := []; uniqueDeps := [] |}).

(** A thrown exception or a returned value. *)
Inductive Outcome (A : Type) : Type :=
| Returned (a : A)
| Thrown.
Arguments Thrown {A}.

Section Processor.

Variable packageJson : string -> option string -> option Npm.Metadata.

(** The callback mapped over the unique dependencies.  [name as string] is
    the source's cast; names that reach it are truthy. *)
Definition resolvePackage (relMap : JsMap.t string) (mainSpdxId : string)
  (dep : Sbom.Package) : Npm.Io Resolved.t :=
  let name := orElse (Sbom.name dep) "" in
  let version := Sbom.versionInfo dep in
  r <- (if truthy (Sbom.licenseConcluded dep)
        then Npm.ret {| Npm.resolveMode := "explicit";
                        Npm.resolvedLicense := Sbom.licenseConcluded dep |}
        else resolveLicenseFromNPM packageJson name (Some version)) ;;
  Npm.ret {| Resolved.name := name;
             Resolved.isTransitiveDep :=
               isTransitiveDepOf relMap mainSpdxId (Sbom.SPDXID dep);
             Resolved.version := version;
             Resolved.license := Npm.resolvedLicense r;
             Resolved.resolveMode := Npm.resolveMode r |}.

(** [Promise.all] keeps the order of the array it is given. *)
Definition resolvedPackages (sbom_relationships : option (list Sbom.Relationship))
  (packages : list Sbom.Package) : list Resolved.t :=
  let relMap := relationshipMap sbom_relationships in
  let '(deps, mainSpdxId) := splitPackages packages in
  map (fun dep => Npm.value (resolvePackage relMap mainSpdxId dep))
      (uniqueDepsOf deps).

(** The [async (res) => ...] callback that follows the SBOM request. *)
Definition processResponse (repoName : string) (res : option Sbom.t)
  : Outcome (option RepoResult.t) :=
  match res with
  | None => Returned None
  | Some sbom =>
      match Sbom.packages sbom with
      | None => Thrown
      | Some packages =>
          Returned (Some {| RepoResult.repo := repoName;
                            RepoResult.packages :=
                              resolvedPackages (Sbom.relationships sbom) packages |})
      end
  end.

End Processor.

(** ** [5] The aggregation maps *)

(** The maps hold references to their inner maps and arrays; here every
    level is read, updated and written back under its key, which leaves the
    key in place. *)
Definition insertPkgIntoMap (repo : string) (pkg : PackageData.t)
  (map : PackageDataMap) : PackageDataMap :=
  let name := PackageData.name pkg in
  let version := PackageData.version pkg in
  let license := PackageData.license pkg in
  let map1 := if negb (JsMap.has name map)
              then JsMap.set name JsMap.empty map else map in
  let byLicense := orElse (JsMap.get name map1) JsMap.empty in
  let byLicense1 := if negb (JsMap.has license byLicense)
                    then JsMap.set license JsMap.empty byLicense
                    else byLicense in
  let byVersion := orElse (JsMap.get license byLicense1) JsMap.empty in
  let byVersion1 := if negb (JsMap.has version byVersion)
                    then JsMap.set version [] byVersion
                    else byVersion in
  let repos := orElse (JsMap.get version byVersion1) [] in
  let repos1 := repos ++ [{| Mapped.repo := repo;
                             Mapped.resolveMode := PackageData.resolveMode pkg;
                             Mapped.isTransitiveDep :=
                               PackageData.isTransitiveDep pkg |}] in
  JsMap.set name
    (JsMap.set license (JsMap.set version repos1 byVersion1) byLicense1)
    map1.

Module Out.

Record VersionEntry : Type := {
  version : string;
  repos : list Mapped.t
}.

Record LicenseEntry : Type := {
  license : string;
  versions : list VersionEntry
}.

Record NameEntry : Type := {
  name : string;
  licenses : list LicenseEntry
}.

End Out.

Section Arraify.

(** [a.localeCompare(b)], by its sign. *)
Variable localeCompare : string -> string -> comparison.

Definition byRepo (a b : Mapped.t) : comparison :=
  localeCompare (Mapped.repo a) (Mapped.repo b).
Definition byVersion (a b : Out.VersionEntry) : comparison :=
  localeCompare (Out.version a) (Out.version b).
Definition byLicense (a b : Out.LicenseEntry) : comparison :=
  localeCompare (Out.license a) (Out.license b).
Definition byName (a b : Out.NameEntry) : comparison :=
  localeCompare (Out.name a) (Out.name b).

Definition arraifyVersions (v : JsMap.t (list Mapped.t))
  : list Out.VersionEntry :=
  sortBy byVersion
    (map (fun kv => {| Out.version := fst kv;
                       Out.repos := sortBy byRepo (snd kv) |}) v).

Definition arraifyLicenses (v : JsMap.t (JsMap.t (list Mapped.t)))
  : list Out.LicenseEntry :=
  sortBy byLicense
    (map (fun kv => {| Out.license := fst kv;
                       Out.versions := arraifyVersions (snd kv) |}) v).

Definition arraifyMap (map0 : PackageDataMap) : list Out.NameEntry :=
  sortBy byName
    (map (fun kv => {| Out.name := fst kv;
                       Out.licenses := arraifyLicenses (snd kv) |}) map0).

End Arraify.

(** ** Step [5d]: filing the packages of a scanned repository *)

Record State : Type := {
  nScanned : nat;
  nFailed : nat;
  nAffected : nat;
  blacklistMap : PackageDataMap;
  noLicenseMap : PackageDataMap
}.

Definition initialState : State :=
  {| nScanned := 0; nFailed := 0; nAffected := 0;
     blacklistMap := JsMap.empty; noLicenseMap := JsMap.empty |}.

Definition withBlacklistMap (m : PackageDataMap) (st : State) : State :=
  {| nScanned := nScanned st; nFailed := nFailed st;
     nAffected := nAffected st;
     blacklistMap := m; noLicenseMap := noLicenseMap st |}.

Definition withNoLicenseMap (m : PackageDataMap) (st : State) : State :=
  {| nScanned := nScanned st; nFailed := nFailed st;
     nAffected := nAffected st;
     blacklistMap := blacklistMap st; noLicenseMap := m |}.

Definition incScanned (st : State) : State :=
  {| nScanned := S (nScanned st); nFailed := nFailed st;
     nAffected := nAffected st;
     blacklistMap := blacklistMap st; noLicenseMap := noLicenseMap st |}.

Definition incFailed (st : State) : State :=
  {| nScanned := nScanned st; nFailed := S (nFailed st);
     nAffected := nAffected st;
     blacklistMap := blacklistMap st; noLicenseMap := noLicenseMap st |}.

Definition incAffected (st : State) : State :=
  {| nScanned := nScanned st; nFailed := nFailed st;
     nAffected := S (nAffected st);
     blacklistMap := blacklistMap st; noLicenseMap := noLicenseMap st |}.

(** A resolved package whose license is known to be the string [l]. *)
Definition asPackageData (pkg : Resolved.t) (l : string) : PackageData.t :=
  {| PackageData.name := Resolved.name pkg;
     PackageData.isTransitiveDep := Resolved.isTransitiveDep pkg;
     PackageData.version := Resolved.version pkg;
     PackageData.resolveMode := Resolved.resolveMode pkg;
     PackageData.license := l |}.

Section Classify.

(** [config.yml]. *)
Variable licenseBlacklist : list string.
Variable ignorePackagesRegex : list string.

(** [new RegExp(pattern).test(subject)]. *)
Variable regExpTest : string -> string -> bool.

Definition ignored (name : string) : bool :=
  existsb (fun regexpStr => regExpTest regexpStr name) ignorePackagesRegex.

(** Body of the [forEach]; the accumulator carries the state and the local
    flag [affected].  An undefined license is neither [=== "Unknown"] nor an
    element of the blacklist, which holds strings. *)
Definition classifyPkg (repo : string) (acc : State * bool)
  (pkg : Resolved.t) : State * bool :=
  let '(st, affected) := acc in
  match Resolved.license pkg with
  | Some l =>
      if l =? "Unknown"
      then (withNoLicenseMap
              (insertPkgIntoMap repo (asPackageData pkg l) (noLicenseMap st)) st,
            true)
      else if existsb (String.eqb l) licenseBlacklist
      then (withBlacklistMap
              (insertPkgIntoMap repo (asPackageData pkg l) (blacklistMap st)) st,
            true)
      else acc
  | None => acc
  end.

Definition updateMaps (res : option RepoResult.t) (st : State) : State :=
  match res with
  | None => st
  | Some r =>
      let kept := filter (fun pkg => negb (ignored (Resolved.name pkg)))
                         (RepoResult.packages r) in
      let '(st', affected) :=
        fold_left (classifyPkg (RepoResult.repo r)) kept (st, false) in
      if affected then incAffected st' else st'
  end.

(** ** The job queue

    Every job is a promise chain.  Its callbacks run one at a time and never
    read the counters or the maps to decide what they return, so a job is
    the sequence of updates its callbacks apply to the shared state, and a
    run of the queue is an interleaving of the jobs' sequences. *)

Inductive Response : Type :=
| RequestFailed
| Responded (sbom : Sbom.t).

Inductive Action : Type :=
| IncFailed
| IncScanned
| UpdateMaps (res : RepoResult.t).

Variable packageJson : string -> option string -> option Npm.Metadata.

Definition job (repoName : string) (response : Response) : list Action :=
  (* .catch of the request *)
  let '(onRequestError, res) :=
    match response with
    | RequestFailed => ([IncFailed], None)
    | Responded sbom => ([], Some sbom)
    end in
  (* .then(async (res) => ...) and the .catch for unexpected errors *)
  let '(onUnexpected, res') :=
    match processResponse packageJson repoName res with
    | Thrown => ([IncFailed], None)
    | Returned r => ([], r)
    end in
  (* .then: count the scan; .then: step [5d] *)
  let onScanned := match res' with Some _ => [IncScanned] | None => [] end in
  let onResult := match res' with Some r => [UpdateMaps r] | None => [] end in
  onRequestError ++ onUnexpected ++ onScanned ++ onResult.

Definition perform (st : State) (a : Action) : State :=
  match a with
  | IncFailed => incFailed st
  | IncScanned => incScanned st
  | UpdateMaps res => updateMaps (Some res) st
  end.

Definition run (schedule : list Action) (st : State) : State :=
  fold_left perform schedule st.

End Classify.

(** [Interleaved jobs schedule]: [schedule] runs every step of every job,
    each job's steps in their order. *)
Inductive Interleaved {A : Type} : list (list A) -> list A -> Prop :=
| Interleaved_done (jobs : list (list A)) :
    Forall (fun j => j = []) jobs -> Interleaved jobs []
| Interleaved_step (before after : list (list A)) (a : A) (j schedule : list A) :
    Interleaved (before ++ j :: after) schedule ->
    Interleaved (before ++ (a :: j) :: after) (a :: schedule).

(** ** Step [7d]: is there anything new to export *)

Inductive Export : Type := Publish | SkipExport.

Section Differ.

(** [createHash("md5").update(text).digest("base64")]. *)
Variable md5Base64 : string -> string.

Definition hasDiffs (a b : string) : bool :=
  negb (md5Base64 a =? md5Base64 b).

(** [existingComment?.body && !hasDiffs(existingComment.body, mdProblems)]
    selects the branch that skips the export. *)
Definition exportStep (existingBody : option string) (mdProblems : string)
  : Export :=
  match existingBody with
  | Some body =>
      if truthy (Some body) && negb (hasDiffs body mdProblems)
      then SkipExport else Publish
  | None => Publish
  end.

End Differ.

(** ** [3], [4] The repositories of the organisation *)

Module Repo.

(** What the script reads of a repository of the listing. *)
Record t : Type := {
  name : string;
  owner : string;
  archived : bool
}.

End Repo.

(** [.then((repos) => repos.filter((repo) => repo.name !== ".github"))]. *)
Definition orgReposOf (listing : list Repo.t) : list Repo.t :=
  filter (fun repo => negb (Repo.name repo =? ".github")) listing.

(** [if (orgRepos.length === 0) throw ...]. *)
Definition requireRepos (orgRepos : list Repo.t) : Outcome (list Repo.t) :=
  if Nat.eqb (List.length orgRepos) 0 then Thrown else Returned orgRepos.

Record RepoArrays : Type := {
  archived : list Repo.t;
  valid : list Repo.t
}.

(** Body of the reduce of step [4]. *)
Definition archiveStep (arrs : RepoArrays) (orgRepo : Repo.t) : RepoArrays :=
  if Repo.archived orgRepo
  then {| archived := archived arrs ++ [orgRepo]; valid := valid arrs |}
  else {| archived := archived arrs; valid := valid arrs ++ [orgRepo] |}.

Definition splitArchived (orgRepos : list Repo.t) : RepoArrays :=
  fold_left archiveStep orgRepos {| archived := []; valid := [] |}.

Section Queue.

Variable packageJson : string -> option string -> option Npm.Metadata.

(** The SBOM request for an owner login and a repository name. *)
Variable requestSbom : string -> string -> Response.

(** [validOrgRepos.forEach(({ owner, name }) => taskQueue.push(...))]. *)
Definition queuedJobs (validOrgRepos : list Repo.t) : list (list Action) :=
  map (fun repo =>
         job packageJson (Repo.name repo)
           (requestSbom (Repo.owner repo) (Repo.name repo)))
      validOrgRepos.

End Queue.

(** The value [taskQueue.start()] resolves to. *)
Record Problems : Type := {
  blacklistPkgs : list Out.NameEntry;
  noLicensePkgs : list Out.NameEntry
}.

Definition problemsOf (localeCompare : string -> string -> comparison)
  (st : State) : Problems :=
  {| blacklistPkgs := arraifyMap localeCompare (blacklistMap st);
     noLicensePkgs := arraifyMap localeCompare (noLicenseMap st) |}.

(** ** [6] The report in markdown *)

(** The counters the rendering updates, and the set of repositories with a
    direct dependency problem, in insertion order. *)
Record Stats : Type := {
  nTransitiveDeps : nat;
  nDirectDeps : nat;
  reposWithDirectDeps : list string
}.

Definition noStats : Stats :=
  {| nTransitiveDeps := 0; nDirectDeps := 0; reposWithDirectDeps := [] |}.

(** [set.add(s)]. *)
Definition setAdd (s : string) (l : list string) : list string :=
  if setHas s l then l else l ++ [s].

Inductive PkgsCategory : Type := blacklisted | missing.

Definition categoryName (c : PkgsCategory) : string :=
  match c with blacklisted => "blacklisted" | missing => "missing" end.

(** The line feed. *)
Definition LF : string :=
  String (Ascii.Ascii false true false true false false false false) "".

(** [array.map(f)] for a callback that updates the counters. *)
Fixpoint mapAccum {A B S : Type} (f : S -> A -> B * S) (s : S) (l : list A)
  : list B * S :=
  match l with
  | [] => ([], s)
  | a :: rest =>
      let '(b, s1) := f s a in
      let '(bs, s2) := mapAccum f s1 rest in
      (b :: bs, s2)
  end.

(** [array.map((x, idx) => f(x, idx))]. *)
Fixpoint mapIndexed {A B : Type} (f : A -> nat -> B) (idx : nat) (l : list A)
  : list B :=
  match l with
  | [] => []
  | a :: rest => f a idx :: mapIndexed f (S idx) rest
  end.

Section Markdown.

Variable orgUrl : string.

(** The callback over the repositories of a version. *)
Definition renderRepo (stats : Stats) (entry : Mapped.t) : string * Stats :=
  let repo := Mapped.repo entry in
  let resolveMode := Mapped.resolveMode entry in
  let isTransitiveDep := Mapped.isTransitiveDep entry in
  let stats' :=
    if isTransitiveDep
    then {| nTransitiveDeps := S (nTransitiveDeps stats);
            nDirectDeps := nDirectDeps stats;
            reposWithDirectDeps := reposWithDirectDeps stats |}
    else {| nTransitiveDeps := nTransitiveDeps stats;
            nDirectDeps := S (nDirectDeps stats);
            reposWithDirectDeps := setAdd repo (reposWithDirectDeps stats) |} in
  let repoLink :=
    ("  - [```" ++ repo ++ "```](" ++ orgUrl ++ "/" ++ repo ++ ")")%string in
  let transitiveDepTag := if isTransitiveDep then "indirect" else "direct" in
  let resolveTag :=
    if negb (resolveMode =? "failed") && negb (resolveMode =? "explicit")
    then (" (" ++ resolveMode ++ ")")%string
    else "" in
  ((repoLink ++ " (" ++ transitiveDepTag ++ ")" ++ resolveTag)%string, stats').

Definition renderVersion (stats : Stats) (e : Out.VersionEntry)
  : string * Stats :=
  let '(lines, stats') := mapAccum renderRepo stats (Out.repos e) in
  (("@ " ++ Out.version e ++ ":<br>" ++ String.concat ",<br>" lines)%string,
   stats').

(** The first [map] over the licenses of a name: the license and its
    versions, rendered. *)
Definition renderLicense (stats : Stats) (e : Out.LicenseEntry)
  : (string * string) * Stats :=
  let '(versions, stats') := mapAccum renderVersion stats (Out.versions e) in
  ((Out.license e, String.concat ",<br>" versions), stats').

(** The second [map]: a table row; only the first row of a package shows
    its name. *)
Definition licenseRow (name : string) (lv : string * string) (idx : nat)
  : string :=
  if Nat.ltb idx 1
  then ("| ```" ++ name ++ "``` | " ++ fst lv ++ " | " ++ snd lv ++ " |")%string
  else ("| | " ++ fst lv ++ " | " ++ snd lv ++ " |")%string.

Definition renderName (stats : Stats) (e : Out.NameEntry) : string * Stats :=
  let '(licenses, stats') := mapAccum renderLicense stats (Out.licenses e) in
  (String.concat LF (mapIndexed (licenseRow (Out.name e)) 0 licenses), stats').

Definition generateMDFromPkgs (problems : Problems)
  (pkgsCategory : PkgsCategory) (stats : Stats) : string * Stats :=
  let pkgs := match pkgsCategory with
              | blacklisted => blacklistPkgs problems
              | missing => noLicensePkgs problems
              end in
  let '(rows, stats') := mapAccum renderName stats pkgs in
  (("### Dependencies with " ++ categoryName pkgsCategory ++ " licenses" ++ LF
    ++ "| Package Name | License | Repositories Affected |" ++ LF
    ++ "| --- | --- | --- |" ++ LF
    ++ String.concat LF rows ++ LF ++ LF
    ++ "Please "
    ++ match pkgsCategory with blacklisted => "remove" | missing => "review" end
    ++ " these dependencies.")%string,
   stats').

(** ** [7] The text to export: [outputComponents.join("\n\n")], with the
    counters as the rendering leaves them. *)
Definition mdProblemsOf (problems : Problems) : string * Stats :=
  let '(first, stats1) :=
    if Nat.ltb 0 (List.length (blacklistPkgs problems))
    then let '(md, s) := generateMDFromPkgs problems blacklisted noStats in
         ([md], s)
    else ([], noStats) in
  let '(second, stats2) :=
    if Nat.ltb 0 (List.length (noLicensePkgs problems))
    then let '(md, s) := generateMDFromPkgs problems missing stats1 in
         ([md], s)
    else ([], stats1) in
  (String.concat (LF ++ LF)%string (first ++ second), stats2).

End Markdown.

(** * Vocabulary of the properties *)

(** ** The relationship map and the dedupe step *)

(** The edges the reduce can store under the key [s]. *)
Definition edgeFrom (s : string) (e : Sbom.Relationship) : bool :=
  truthy (Sbom.spdxElementId e) && truthy (Sbom.relatedSpdxElement e)
  && strictEq (Sbom.spdxElementId e) (Some s).

Definition firstTarget (s : string) (edges : list Sbom.Relationship)
  : option string :=
  match find (edgeFrom s) edges with
  | Some e => Sbom.relatedSpdxElement e
  | None => None
  end.

Definition hasName (n : string) (d : Sbom.Package) : bool :=
  strictEq (Sbom.name d) (Some n).

Definition firstNamed (n : string) (deps : list Sbom.Package)
  : list Sbom.Package :=
  match find (hasName n) deps with
  | Some d => [d]
  | None => []
  end.

(** ** The aggregation maps as nested updates *)

(** Read the value under [k] (or [d] when [k] is new), change it with [f],
    write it back. *)
Definition upsert {V : Type} (k : string) (d : V) (f : V -> V) (m : JsMap.t V)
  : JsMap.t V :=
  JsMap.set k (f (orElse (JsMap.get k m) d)) m.

Definition mappedOf (repo : string) (pkg : PackageData.t) : Mapped.t :=
  {| Mapped.repo := repo;
     Mapped.resolveMode := PackageData.resolveMode pkg;
     Mapped.isTransitiveDep := PackageData.isTransitiveDep pkg |}.

(** What a map holds, level by level. *)
Definition gather {V B : Type} (f : V -> list B) (m : JsMap.t V) : list B :=
  flat_map (fun kv => f (snd kv)) m.

(** The repositories filed in a map, one per entry. *)
Definition storeRepos (m : PackageDataMap) : list string :=
  gather (gather (gather (map Mapped.repo))) m.

(** ** Filing *)

(** The result of a repository with one package. *)
Definition single (repo : string) (pkg : Resolved.t) : option RepoResult.t :=
  Some {| RepoResult.repo := repo; RepoResult.packages := [pkg] |}.

(** The two maps of a state. *)
Definition stores (st : State) : PackageDataMap * PackageDataMap :=
  (blacklistMap st, noLicenseMap st).

(** Every repository filed in one of the two maps. *)
Definition filedRepos (st : State) : list string :=
  storeRepos (blacklistMap st) ++ storeRepos (noLicenseMap st).

(** ** The job queue *)

Definition isIncFailed (a : Action) : bool :=
  match a with IncFailed => true | _ => false end.

Definition isIncScanned (a : Action) : bool :=
  match a with IncScanned => true | _ => false end.

(** A job fails when the SBOM request is rejected or the callback that
    processes the response throws. *)
Definition failed (packageJson : string -> option string -> option Npm.Metadata)
  (j : string * Response) : bool :=
  match snd j with
  | RequestFailed => true
  | Responded sbom =>
      match processResponse packageJson (fst j) (Some sbom) with
      | Thrown => true
      | Returned _ => false
      end
  end.

Definition succeeded
  (packageJson : string -> option string -> option Npm.Metadata)
  (j : string * Response) : bool :=
  negb (failed packageJson j).

Definition jobOf (packageJson : string -> option string -> option Npm.Metadata)
  (j : string * Response) : list Action :=
  job packageJson (fst j) (snd j).

(** ** Sorting *)

(** What the script needs of [localeCompare]: swapping the arguments swaps
    the sign, and "not after" is transitive. *)
Record Collation (cmp : string -> string -> comparison) : Prop := {
  collation_swap : forall a b, cmp b a = CompOpp (cmp a b);
  collation_trans :
    forall a b c, cmp a b <> Gt -> cmp b c <> Gt -> cmp a c <> Gt
}.

(** [cmp] tells apart the keys of [l]: it returns [Eq] on equal keys only. *)
Definition separates {A : Type} (cmp : string -> string -> comparison)
  (key : A -> string) (l : list A) : Prop :=
  forall a b, In a l -> In b l -> cmp (key a) (key b) = Eq -> key a = key b.

Definition sortedOn {A : Type} (cmp : string -> string -> comparison)
  (key : A -> string) (l : list A) : Prop :=
  Sorted (fun a b => cmp (key a) (key b) <> Gt) l.

(** ** Facts and levels *)

(** The facts that reach a map: a repository name and a package. *)
Definition Fact : Type := (string * PackageData.t)%type.

Definition factRepo (t : Fact) : string := fst t.

Definition factName (t : Fact) : string := PackageData.name (snd t).

Definition factLicense (t : Fact) : string := PackageData.license (snd t).

Definition factVersion (t : Fact) : string := PackageData.version (snd t).

Definition factKey (t : Fact) : string * (string * (string * string)) :=
  (factName t, (factLicense t, (factVersion t, factRepo t))).

Definition insertAll (ts : list Fact) : PackageDataMap :=
  fold_left (fun m t => insertPkgIntoMap (fst t) (snd t) m) ts JsMap.empty.

(** The facts filed under the key [n]. *)
Definition under (k : Fact -> string) (n : string) (ts : list Fact)
  : list Fact :=
  filter (fun t => k t =? n) ts.

Section LevelDefs.

(** A level keyed by [k] holds values of type [V], changed by [step] for
    every fact filed, created as [d], and rendered by [render]; [mk] builds
    the entry of the output array.  [below] is what the level below needs of
    the facts it is given. *)
Context {V O E : Type}.
Variable cmp : string -> string -> comparison.
Variable k : Fact -> string.
Variable d : V.
Variable step : Fact -> V -> V.
Variable render : V -> O.
Variable mk : string -> O -> E.
Variable keyOf : E -> string.
Variable below : list Fact -> Prop.

Definition file (t : Fact) (m : JsMap.t V) : JsMap.t V :=
  upsert (k t) d (step t) m.

Definition renderLevel (m : JsMap.t V) : list E :=
  sortBy (fun a b => cmp (keyOf a) (keyOf b))
    (map (fun kv => mk (fst kv) (render (snd kv))) m).

Definition here (ts : list Fact) : Prop :=
  separates cmp k ts /\ forall n, below (under k n ts).

Definition rendered (m : JsMap.t V) : JsMap.t O :=
  map (fun kv => (fst kv, render (snd kv))) m.

End LevelDefs.

Definition appendRepo (t : Fact) (repos : list Mapped.t) : list Mapped.t :=
  repos ++ [mappedOf (fst t) (snd t)].

Definition fileVersion : Fact -> JsMap.t (list Mapped.t) -> _ :=
  file factVersion [] appendRepo.

Definition fileLicense : Fact -> JsMap.t (JsMap.t (list Mapped.t)) -> _ :=
  file factLicense JsMap.empty fileVersion.

Definition fileName : Fact -> PackageDataMap -> PackageDataMap :=
  file factName JsMap.empty fileLicense.

Section OutputDefs.

Variable localeCompare : string -> string -> comparison.

(** What each level asks of the facts filed in it. *)
Definition reposOk (ts : list Fact) : Prop :=
  NoDup (map factRepo ts) /\ separates localeCompare factRepo ts.

Definition versionsOk : list Fact -> Prop :=
  here localeCompare factVersion reposOk.

Definition licensesOk : list Fact -> Prop :=
  here localeCompare factLicense versionsOk.

Definition namesOk : list Fact -> Prop :=
  here localeCompare factName licensesOk.

(** The output is sorted at every level. *)
Definition sortedVersionEntry (e : Out.VersionEntry) : Prop :=
  sortedOn localeCompare Mapped.repo (Out.repos e).

Definition sortedLicenseEntry (e : Out.LicenseEntry) : Prop :=
  sortedOn localeCompare Out.version (Out.versions e)
  /\ Forall sortedVersionEntry (Out.versions e).

Definition sortedNameEntry (e : Out.NameEntry) : Prop :=
  sortedOn localeCompare Out.license (Out.licenses e)
  /\ Forall sortedLicenseEntry (Out.licenses e).

Definition sortedOutput (out : list Out.NameEntry) : Prop :=
  sortedOn localeCompare Out.name out /\ Forall sortedNameEntry out.

End OutputDefs.

(** ** Sample data *)

Definition leftPad (license : option string) : Resolved.t :=
  {| Resolved.name := "left-pad";
     Resolved.isTransitiveDep := false;
     Resolved.version := "1.3.0";
     Resolved.license := license;
     Resolved.resolveMode := "npmCurrVer" |}.

Definition brokenAndApp : list (string * Response) :=
  [ ("broken", RequestFailed);
    ("app",
     Responded
       {| Sbom.relationships :=
            Some [{| Sbom.spdxElementId := Some "SPDXRef-gpl";
                     Sbom.relatedSpdxElement := Some "SPDXRef-root" |}];
          Sbom.packages :=
            Some [ {| Sbom.SPDXID := Some "SPDXRef-root";
                      Sbom.name := Some "com.github.org/app";
                      Sbom.versionInfo := "main";
                      Sbom.licenseConcluded := None |};
                   {| Sbom.SPDXID := Some "SPDXRef-gpl";
                      Sbom.name := Some "npm:gpl-thing";
                      Sbom.versionInfo := "2.0.0";
                      Sbom.licenseConcluded := Some "GPL-3.0" |} ] |}) ].

Definition appResult : RepoResult.t :=
  {| RepoResult.repo := "app";
     RepoResult.packages :=
       [ {| Resolved.name := "npm:gpl-thing";
            Resolved.isTransitiveDep := false;
            Resolved.version := "2.0.0";
            Resolved.license := Some "GPL-3.0";
            Resolved.resolveMode := "explicit" |} ] |}.

Definition gplThing (version : string) (isTransitiveDep : bool)
  : PackageData.t :=
  {| PackageData.name := "gpl-thing";
     PackageData.isTransitiveDep := isTransitiveDep;
     PackageData.version := version;
     PackageData.resolveMode := "explicit";
     PackageData.license := "GPL-3.0" |}.

Definition arrival1 : list Fact :=
  [ ("web", gplThing "2.0.0" false);
    ("api", gplThing "2.0.0" true);
    ("api", gplThing "1.0.0" false) ].

Definition arrival2 : list Fact :=
  [ ("api", gplThing "2.0.0" true);
    ("api", gplThing "1.0.0" false);
    ("web", gplThing "2.0.0" false) ].

(** A collation may rank two different strings as equal: the default one
    of [localeCompare] does so with strings that differ in characters it
    ignores.  [collateIgnoringSoh] is such a comparator: the code-unit
    order of what is left of the two strings once U+0001 is taken out. *)
Definition soh : Ascii.ascii :=
  Ascii.Ascii true false false false false false false false.

Fixpoint withoutSoh (s : string) : string :=
  match s with
  | EmptyString => EmptyString
  | String c rest =>
      if Ascii.eqb c soh then withoutSoh rest
      else String c (withoutSoh rest)
  end.

Definition collateIgnoringSoh (a b : string) : comparison :=
  String.compare (withoutSoh a) (withoutSoh b).

(** Two packages of one repository whose names differ in U+0001 only, in
    the two orders in which they can arrive. *)
Definition padOf (name : string) : Fact :=
  ("app",
   {| PackageData.name := name;
      PackageData.isTransitiveDep := false;
      PackageData.version := "1.3.0";
      PackageData.resolveMode := "explicit";
      PackageData.license := "WTFPL" |}).

Definition tiedArrival1 : list Fact :=
  [ padOf "left-pad"; padOf (String.append "left-pad" (String soh "")) ].

Definition tiedArrival2 : list Fact :=
  [ padOf (String.append "left-pad" (String soh "")); padOf "left-pad" ].

(** ** The root node and the dependencies *)

(** The edge with both ids present. *)
Definition edgeOf (k v : string) : Sbom.Relationship :=
  {| Sbom.spdxElementId := Some k; Sbom.relatedSpdxElement := Some v |}.

(** What the reduce keeps true of the relationship map, for the edges
    [edges] it reads from. *)
Definition edgesOnly (edges : list Sbom.Relationship) (m : JsMap.t string)
  : Prop :=
  NoDup (JsMap.keys m)
  /\ forall k v, In (k, v) m ->
       k <> "" /\ v <> "" /\ In (edgeOf k v) edges.

Definition isMain (p : Sbom.Package) : bool := Sbom.versionInfo p =? "main".

(** The element id the reduce ends with: that of the last node whose version
    is "main", or the empty string. *)
Definition lastRootId (packages : list Sbom.Package) : string :=
  match rev (filter isMain packages) with
  | root :: _ => orElse (Sbom.SPDXID (withSpdxId root)) ""
  | [] => ""
  end.

Definition depName (d : Sbom.Package) : string := orElse (Sbom.name d) "".

Definition isExplicit (d : Sbom.Package) : bool :=
  truthy (Sbom.licenseConcluded d).


(** What the dedupe reduce keeps true of its state. *)
Definition uniqueInv (st : UniqueState) : Prop :=
  uniqueDepNames st = map depName (uniqueDeps st)
  /\ NoDup (uniqueDepNames st)
  /\ Forall (fun d => truthy (Sbom.name d) = true) (uniqueDeps st).

Definition knownMode (mode : string) : Prop :=
  mode = "explicit" \/ mode = "npmCurrVer" \/ mode = "npmLatestVer"
  \/ mode = "failed".

(** ** What the aggregation maps hold *)

(** [map.get(name)?.get(license)?.get(version) ?? []]. *)
Definition entriesAt (name license version : string) (m : PackageDataMap)
  : list Mapped.t :=
  orElse
    (JsMap.get version
       (orElse
          (JsMap.get license (orElse (JsMap.get name m) JsMap.empty))
          JsMap.empty))
    [].

(** An entry with the three keys it is filed under. *)
Definition Filed : Type := (string * string * string * Mapped.t)%type.

Definition factFiled (t : Fact) : Filed :=
  (factName t, factLicense t, factVersion t, mappedOf (fst t) (snd t)).

(** Like [gather], for a function that reads the key too. *)
Definition gatherKeyed {V B : Type} (f : string -> V -> list B)
  (m : JsMap.t V) : list B :=
  flat_map (fun kv => f (fst kv) (snd kv)) m.

Definition mapFiled (m : PackageDataMap) : list Filed :=
  gatherKeyed
    (fun name =>
       gatherKeyed
         (fun license =>
            gatherKeyed
              (fun version => map (fun e => (name, license, version, e)))))
    m.

Definition outFiled (out : list Out.NameEntry) : list Filed :=
  flat_map
    (fun ne =>
       flat_map
         (fun le =>
            flat_map
              (fun ve =>
                 map (fun e => (Out.name ne, Out.license le, Out.version ve, e))
                     (Out.repos ve))
              (Out.versions le))
         (Out.licenses ne))
    out.

(** A level of a map has one entry per key, each satisfying [inner]. *)
Definition level {V : Type} (inner : V -> Prop) (m : JsMap.t V) : Prop :=
  NoDup (JsMap.keys m) /\ Forall (fun kv => inner (snd kv)) m.

Definition versionsLevel (byVersion : JsMap.t (list Mapped.t)) : Prop :=
  level (fun repos => repos <> []) byVersion.

Definition licensesLevel (byLicense : JsMap.t (JsMap.t (list Mapped.t)))
  : Prop :=
  level (fun byVersion => byVersion <> [] /\ versionsLevel byVersion) byLicense.

(** No key is repeated and none is left without entries: every name has a
    license, every license a version, every version a repository. *)
Definition wellFormed (m : PackageDataMap) : Prop :=
  level (fun byLicense => byLicense <> [] /\ licensesLevel byLicense) m.

(** The license keys of a map, under whatever name. *)
Definition licenseKeys (m : PackageDataMap) : list string :=
  gather (fun byLicense : JsMap.t (JsMap.t (list Mapped.t)) =>
            JsMap.keys byLicense) m.

(** ** Filing, counted *)

(** The branch of the [forEach] that files a package is taken. *)
Definition isFiled (licenseBlacklist : list string) (pkg : Resolved.t)
  : bool :=
  match Resolved.license pkg with
  | Some l => (l =? "Unknown") || existsb (String.eqb l) licenseBlacklist
  | None => false
  end.

(** The packages of a result that get filed. *)
Definition toFile (licenseBlacklist ignorePackagesRegex : list string)
  (regExpTest : string -> string -> bool) (pkgs : list Resolved.t)
  : list Resolved.t :=
  filter (isFiled licenseBlacklist)
    (filter (fun pkg =>
               negb (ignored ignorePackagesRegex regExpTest (Resolved.name pkg)))
            pkgs).

Definition isUpdateMaps (a : Action) : bool :=
  match a with UpdateMaps _ => true | _ => false end.

(** The request each valid repository is queued with. *)
Definition requestsOf (requestSbom : string -> string -> Response)
  (validOrgRepos : list Repo.t) : list (string * Response) :=
  map (fun repo =>
         (Repo.name repo, requestSbom (Repo.owner repo) (Repo.name repo)))
      validOrgRepos.

(** ** The report, counted *)

(** The entries of the arrays, in the order the rendering visits them. *)
Definition outEntries (out : list Out.NameEntry) : list Mapped.t :=
  flat_map
    (fun ne =>
       flat_map (fun le => flat_map Out.repos (Out.versions le))
                (Out.licenses ne))
    out.

(** What rendering one entry does to the counters. *)
Definition tally (stats : Stats) (entry : Mapped.t) : Stats :=
  if Mapped.isTransitiveDep entry
  then {| nTransitiveDeps := S (nTransitiveDeps stats);
          nDirectDeps := nDirectDeps stats;
          reposWithDirectDeps := reposWithDirectDeps stats |}
  else {| nTransitiveDeps := nTransitiveDeps stats;
          nDirectDeps := S (nDirectDeps stats);
          reposWithDirectDeps :=
            setAdd (Mapped.repo entry) (reposWithDirectDeps stats) |}.

Definition isDirectEntry (entry : Mapped.t) : bool :=
  negb (Mapped.isTransitiveDep entry).

(** The entries both arrays hold. *)
Definition reportedEntries (problems : Problems) : list Mapped.t :=
  outEntries (blacklistPkgs problems) ++ outEntries (noLicensePkgs problems).

(** * Properties *)

(** ** Maps *)

Module JsMapFacts.

Section Facts.
Context {V : Type}.
Implicit Types (k : string) (v d : V) (m : JsMap.t V).

Lemma get_set k k' v m :
  JsMap.get k' (JsMap.set k v m) = if k =? k' then Some v else JsMap.get k' m.
Proof.
  induction m as [|[k0 v0] rest IH]; simpl.
  - destruct (k =? k'); reflexivity.
  - destruct (String.eqb_spec k0 k) as [->|Hne]; simpl.
    + destruct (k =? k'); reflexivity.
    + destruct (String.eqb_spec k0 k') as [->|Hne'].
      * destruct (String.eqb_spec k k') as [->|_]; [congruence|reflexivity].
      * exact IH.
Qed.

Lemma get_set_same k v m : JsMap.get k (JsMap.set k v m) = Some v.
Proof. rewrite get_set, String.eqb_refl. reflexivity. Qed.

Lemma get_In k v m : JsMap.get k m = Some v -> In (k, v) m.
Proof.
  induction m as [|[k0 v0] rest IH]; simpl; [discriminate|].
  destruct (String.eqb_spec k0 k) as [->|_].
  - intros [= ->]. now left.
  - intros H. right. auto.
Qed.

Lemma get_None_keys k m : JsMap.get k m = None <-> ~ In k (JsMap.keys m).
Proof.
  induction m as [|[k0 v0] rest IH]; simpl.
  - tauto.
  - destruct (String.eqb_spec k0 k) as [->|Hne].
    + split; [discriminate|]. intros H. exfalso. apply H. now left.
    + rewrite IH. tauto.
Qed.

Lemma In_get k v m :
  NoDup (JsMap.keys m) -> In (k, v) m -> JsMap.get k m = Some v.
Proof.
  induction m as [|[k0 v0] rest IH]; simpl; [tauto|].
  intros Hnd [Heq|Hin].
  - injection Heq as -> ->. now rewrite String.eqb_refl.
  - inversion Hnd as [|? ? Hnotin Hnd']; subst.
    destruct (String.eqb_spec k0 k) as [->|_].
    + exfalso. apply Hnotin. change k with (fst (k, v)). now apply in_map.
    + auto.
Qed.

Lemma keys_set k v m :
  JsMap.keys (JsMap.set k v m)
  = if JsMap.has k m then JsMap.keys m else JsMap.keys m ++ [k].
Proof.
  unfold JsMap.has, JsMap.keys.
  induction m as [|[k0 v0] rest IH]; simpl; [reflexivity|].
  destruct (String.eqb_spec k0 k) as [->|Hne]; simpl; [reflexivity|].
  rewrite IH. destruct (JsMap.get k rest); reflexivity.
Qed.

Lemma NoDup_keys_set k v m :
  NoDup (JsMap.keys m) -> NoDup (JsMap.keys (JsMap.set k v m)).
Proof.
  intros Hnd. rewrite keys_set. unfold JsMap.has.
  destruct (JsMap.get k m) eqn:E; [assumption|].
  apply get_None_keys in E.
  apply NoDup_rev in Hnd. rewrite <- (rev_involutive (JsMap.keys m ++ [k])).
  apply NoDup_rev. rewrite rev_app_distr. simpl. constructor; [|assumption].
  now rewrite <- in_rev.
Qed.

(** Creating a key when it is absent and then writing it is writing it. *)
Lemma set_ensure k v d m :
  JsMap.set k v (if negb (JsMap.has k m) then JsMap.set k d m else m)
  = JsMap.set k v m.
Proof.
  unfold JsMap.has. induction m as [|[k0 v0] rest IH]; simpl.
  - now rewrite String.eqb_refl.
  - destruct (String.eqb_spec k0 k) as [->|Hne]; simpl.
    + now rewrite String.eqb_refl.
    + destruct (JsMap.get k rest) eqn:E; simpl.
      * destruct (String.eqb_spec k0 k); [contradiction|reflexivity].
      * simpl in IH.
        destruct (String.eqb_spec k0 k); [contradiction|]. now rewrite IH.
Qed.

Lemma get_ensure k d m :
  JsMap.get k (if negb (JsMap.has k m) then JsMap.set k d m else m)
  = Some (orElse (JsMap.get k m) d).
Proof.
  unfold JsMap.has. destruct (JsMap.get k m) eqn:E; simpl; [assumption|].
  apply get_set_same.
Qed.

End Facts.

End JsMapFacts.

(** ** The relationship map *)

Lemma get_relationshipStep (s : string) (m : JsMap.t string)
  (e : Sbom.Relationship) :
  JsMap.get s (relationshipStep m e)
  = match JsMap.get s m with
    | Some t => Some t
    | None => if edgeFrom s e then Sbom.relatedSpdxElement e else None
    end.
Proof.
  unfold relationshipStep, edgeFrom.
  destruct e as [[src|] [tgt|]]; simpl;
    try (destruct (JsMap.get s m); try reflexivity;
         rewrite ?andb_false_r; reflexivity).
  unfold JsMap.has.
  destruct (String.eqb_spec src "") as [->|Hsrc]; simpl.
  { destruct (JsMap.get s m); reflexivity. }
  destruct (String.eqb_spec tgt "") as [->|Htgt]; simpl.
  { destruct (JsMap.get s m); reflexivity. }
  destruct (String.eqb_spec src s) as [->|Hs].
  - destruct (JsMap.get s m) eqn:E; simpl; [now rewrite E|].
    apply JsMapFacts.get_set_same.
  - destruct (JsMap.get src m) eqn:E; simpl.
    + destruct (JsMap.get s m); reflexivity.
    + rewrite JsMapFacts.get_set.
      destruct (String.eqb_spec src s); [contradiction|].
      destruct (JsMap.get s m); reflexivity.
Qed.

Lemma get_fold_relationshipStep (s : string) (edges : list Sbom.Relationship) :
  forall m,
    JsMap.get s (fold_left relationshipStep edges m)
    = match JsMap.get s m with
      | Some t => Some t
      | None => firstTarget s edges
      end.
Proof.
  unfold firstTarget.
  induction edges as [|e edges IH]; intros m; simpl.
  - destruct (JsMap.get s m); reflexivity.
  - rewrite IH, get_relationshipStep.
    destruct (JsMap.get s m) as [t|]; [reflexivity|].
    destruct (edgeFrom s e) eqn:E; [|reflexivity].
    unfold edgeFrom in E. apply andb_prop in E as [E _].
    apply andb_prop in E as [_ E].
    destruct (Sbom.relatedSpdxElement e); [reflexivity|discriminate].
Qed.

(** C5.  The relationship map sends a source id to the target of the first
    edge, in input order, that starts at it and carries both ids; edges that
    lack an id are never stored, and edges that come later for a source id
    already stored leave its target as it is. *)
Theorem relationshipMap_first_edge_wins
  (edges more : list Sbom.Relationship) (s : string) :
  JsMap.get s (relationshipMap (Some edges)) = firstTarget s edges
  /\ JsMap.get s (relationshipMap (Some (edges ++ more)))
     = match JsMap.get s (relationshipMap (Some edges)) with
       | Some t => Some t
       | None => JsMap.get s (relationshipMap (Some more))
       end.
Proof.
  unfold relationshipMap. simpl. split.
  - now rewrite get_fold_relationshipStep.
  - rewrite fold_left_app, !get_fold_relationshipStep. simpl.
    destruct (firstTarget s edges); reflexivity.
Qed.

(** ** Direct and transitive dependencies *)

(** C4.  A dependency whose element id has no entry in the relationship map
    is resolved as transitive, whatever root id was found. *)
Theorem missing_relationship_is_transitive
  (packageJson : string -> option string -> option Npm.Metadata)
  (relMap : JsMap.t string) (mainSpdxId : string) (dep : Sbom.Package) :
  JsMap.get (orElse (Sbom.SPDXID dep) "") relMap = None ->
  isTransitiveDepOf relMap mainSpdxId (Sbom.SPDXID dep) = true
  /\ Resolved.isTransitiveDep
       (Npm.value (resolvePackage packageJson relMap mainSpdxId dep)) = true.
Proof.
  intros Hget.
  assert (H : isTransitiveDepOf relMap mainSpdxId (Sbom.SPDXID dep) = true).
  { unfold isTransitiveDepOf. now rewrite Hget. }
  split; [exact H|].
  unfold resolvePackage, Npm.value, Npm.bind, Npm.ret.
  destruct (if truthy (Sbom.licenseConcluded dep) then _ else _) as [r sent].
  simpl. exact H.
Qed.

Lemma missing_relationship_is_transitive_witness :
  let dep := {| Sbom.SPDXID := Some "SPDXRef-npm-left-pad";
                Sbom.name := Some "npm:left-pad";
                Sbom.versionInfo := "1.3.0";
                Sbom.licenseConcluded := Some "WTFPL" |} in
  let relMap := relationshipMap
                  (Some [{| Sbom.spdxElementId := Some "SPDXRef-other";
                            Sbom.relatedSpdxElement := Some "SPDXRef-root" |}]) in
  JsMap.get (orElse (Sbom.SPDXID dep) "") relMap = None
  /\ Resolved.isTransitiveDep
       (Npm.value (resolvePackage (fun _ _ => None) relMap "SPDXRef-root" dep))
     = true.
Proof.
  split; [reflexivity|].
  apply (missing_relationship_is_transitive (fun _ _ => None)).
  reflexivity.
Defined.

(** ** Deduplication by name *)

Lemma setHas_app (n : string) (l l' : list string) :
  setHas n (l ++ l') = setHas n l || setHas n l'.
Proof. unfold setHas. apply existsb_app. Qed.

Lemma filter_uniqueDeps_fold (n : string) (deps : list Sbom.Package) :
  n <> "" ->
  forall st,
    filter (hasName n) (uniqueDeps (fold_left uniqueStep deps st))
    = filter (hasName n) (uniqueDeps st)
      ++ (if setHas n (uniqueDepNames st) then [] else firstNamed n deps).
Proof.
  intros Hn. unfold firstNamed.
  induction deps as [|d deps IH]; intros st; simpl.
  - destruct (setHas n (uniqueDepNames st)); now rewrite app_nil_r.
  - rewrite IH. clear IH.
    assert (Hd : hasName n d
                 = match Sbom.name d with Some m => m =? n | None => false end).
    { unfold hasName. destruct (Sbom.name d); reflexivity. }
    rewrite Hd. unfold uniqueStep.
    destruct (Sbom.name d) as [m|] eqn:Em; [|reflexivity].
    unfold truthy.
    destruct (String.eqb_spec m "") as [->|Hm]; simpl.
    { destruct n; [congruence|reflexivity]. }
    destruct (setHas m (uniqueDepNames st)) eqn:Eseen; simpl.
    + destruct (String.eqb_spec m n) as [->|_]; [|reflexivity].
      now rewrite Eseen.
    + rewrite filter_app, setHas_app. simpl. rewrite Hd.
      rewrite (String.eqb_sym n m), orb_false_r.
      destruct (String.eqb_spec m n) as [->|_].
      * rewrite Eseen, orb_true_r, app_nil_r. reflexivity.
      * rewrite orb_false_r, app_nil_r. reflexivity.
Qed.

Lemma filter_uniqueDepsOf (n : string) (deps : list Sbom.Package) :
  n <> "" -> filter (hasName n) (uniqueDepsOf deps) = firstNamed n deps.
Proof.
  intros Hn. unfold uniqueDepsOf.
  rewrite filter_uniqueDeps_fold by assumption. reflexivity.
Qed.

Lemma name_resolvePackage
  (packageJson : string -> option string -> option Npm.Metadata)
  (relMap : JsMap.t string) (mainSpdxId : string) (dep : Sbom.Package) :
  Resolved.name (Npm.value (resolvePackage packageJson relMap mainSpdxId dep))
  = orElse (Sbom.name dep) "".
Proof.
  unfold resolvePackage, Npm.value, Npm.bind, Npm.ret.
  destruct (if truthy (Sbom.licenseConcluded dep) then _ else _) as [r sent].
  reflexivity.
Qed.

(** C9.  Of the dependency nodes that share a non-empty name, the first one
    in input order is the only one kept, so the list of resolved packages
    holds exactly one package of that name, the one resolved from that first
    node. *)
Theorem one_resolution_per_name
  (packageJson : string -> option string -> option Npm.Metadata)
  (relationships : option (list Sbom.Relationship))
  (packages : list Sbom.Package) (n : string) (first : Sbom.Package) :
  n <> "" ->
  find (hasName n) (fst (splitPackages packages)) = Some first ->
  filter (hasName n) (uniqueDepsOf (fst (splitPackages packages))) = [first]
  /\ filter (fun pkg => Resolved.name pkg =? n)
       (resolvedPackages packageJson relationships packages)
     = [Npm.value
          (resolvePackage packageJson (relationshipMap relationships)
             (snd (splitPackages packages)) first)].
Proof.
  intros Hn Hfirst.
  assert (Hone : filter (hasName n) (uniqueDepsOf (fst (splitPackages packages)))
                 = [first]).
  { rewrite filter_uniqueDepsOf by assumption.
    unfold firstNamed. now rewrite Hfirst. }
  split; [exact Hone|].
  unfold resolvedPackages.
  destruct (splitPackages packages) as [deps mainSpdxId]. simpl in *.
  set (f := fun dep => Npm.value (resolvePackage _ _ mainSpdxId dep)).
  assert (Hmap : forall l,
             filter (fun pkg => Resolved.name pkg =? n) (map f l)
             = map f (filter (hasName n) l)).
  { induction l as [|d l IH]; simpl; [reflexivity|].
    unfold f at 1. rewrite name_resolvePackage. unfold hasName at 1.
    destruct (Sbom.name d) as [m|]; simpl.
    - destruct (m =? n); simpl; now rewrite IH.
    - destruct n; [congruence|]. exact IH. }
  rewrite Hmap, Hone. reflexivity.
Qed.

Lemma one_resolution_per_name_witness :
  let lodash v := {| Sbom.SPDXID := Some (String.append "SPDXRef-lodash-" v);
                     Sbom.name := Some "npm:lodash";
                     Sbom.versionInfo := v;
                     Sbom.licenseConcluded := Some "MIT" |} in
  let packages := [ {| Sbom.SPDXID := Some "SPDXRef-root";
                       Sbom.name := Some "com.github.org/app";
                       Sbom.versionInfo := "main";
                       Sbom.licenseConcluded := None |};
                    lodash "4.17.20"; lodash "4.17.21" ] in
  filter (fun pkg => Resolved.name pkg =? "npm:lodash")
    (resolvedPackages (fun _ _ => None) None packages)
  = [Npm.value
       (resolvePackage (fun _ _ => None) (relationshipMap None)
          (snd (splitPackages packages)) (lodash "4.17.20"))].
Proof.
  intros lodash packages.
  apply (one_resolution_per_name (fun _ _ => None) None packages
           (n := "npm:lodash") (first := lodash "4.17.20")).
  - discriminate.
  - reflexivity.
Defined.

(** ** License resolution *)

(** C3.  A truthy explicit license is returned as it is, tagged "explicit",
    and nothing is asked of the registry.  Otherwise the registry is asked
    for the node's version; if that succeeds its license is returned, tagged
    "npmCurrVer", and nothing more is asked.  If it fails the registry is
    asked once more, without a version; success gives "npmLatestVer", and
    failure gives the license "non-NPM" tagged "failed". *)
Theorem license_fallback_order
  (packageJson : string -> option string -> option Npm.Metadata)
  (relMap : JsMap.t string) (mainSpdxId : string) (dep : Sbom.Package) :
  let name := orElse (Sbom.name dep) "" in
  let version := Sbom.versionInfo dep in
  let resolution := resolvePackage packageJson relMap mainSpdxId dep in
  let pkg := Npm.value resolution in
  (truthy (Sbom.licenseConcluded dep) = true ->
     Resolved.license pkg = Sbom.licenseConcluded dep
     /\ Resolved.resolveMode pkg = "explicit"
     /\ Npm.queries resolution = [])
  /\ (truthy (Sbom.licenseConcluded dep) = false ->
      forall md, packageJson name (Some version) = Some md ->
        Resolved.license pkg = Npm.license md
        /\ Resolved.resolveMode pkg = "npmCurrVer"
        /\ Npm.queries resolution = [(name, Some version)])
  /\ (truthy (Sbom.licenseConcluded dep) = false ->
      packageJson name (Some version) = None ->
      forall md, packageJson name None = Some md ->
        Resolved.license pkg = Npm.license md
        /\ Resolved.resolveMode pkg = "npmLatestVer"
        /\ Npm.queries resolution = [(name, Some version); (name, None)])
  /\ (truthy (Sbom.licenseConcluded dep) = false ->
      packageJson name (Some version) = None ->
      packageJson name None = None ->
        Resolved.license pkg = Some "non-NPM"
        /\ Resolved.resolveMode pkg = "failed"
        /\ Npm.queries resolution = [(name, Some version); (name, None)]).
Proof.
  cbv zeta.
  unfold resolvePackage, resolveLicenseFromNPM, fetchMetadata.
  unfold Npm.value, Npm.queries, Npm.bind, Npm.ret.
  split; [|split; [|split]].
  - intros Hexplicit. rewrite Hexplicit. simpl. repeat split; reflexivity.
  - intros Hexplicit md Hmd. rewrite Hexplicit, Hmd. simpl.
    repeat split; reflexivity.
  - intros Hexplicit Hcur md Hmd. rewrite Hexplicit, Hcur, Hmd. simpl.
    repeat split; reflexivity.
  - intros Hexplicit Hcur Hlatest. rewrite Hexplicit, Hcur, Hlatest. simpl.
    repeat split; reflexivity.
Qed.

Lemma license_fallback_order_witness :
  let registry (name : string) (version : option string) :=
    match version with
    | Some _ => None
    | None => Some {| Npm.license := Some "MIT" |}
    end in
  let dep := {| Sbom.SPDXID := Some "SPDXRef-npm-left-pad";
                Sbom.name := Some "left-pad";
                Sbom.versionInfo := "9.9.9";
                Sbom.licenseConcluded := None |} in
  let resolution := resolvePackage registry JsMap.empty "SPDXRef-root" dep in
  Resolved.license (Npm.value resolution) = Some "MIT"
  /\ Resolved.resolveMode (Npm.value resolution) = "npmLatestVer"
  /\ Npm.queries resolution = [("left-pad", Some "9.9.9"); ("left-pad", None)].
Proof.
  intros registry dep resolution.
  exact (proj1 (proj2 (proj2
           (license_fallback_order registry JsMap.empty "SPDXRef-root" dep)))
           eq_refl eq_refl {| Npm.license := Some "MIT" |} eq_refl).
Defined.

(** ** The aggregation maps as nested updates *)

Lemma insertPkgIntoMap_upsert (repo : string) (pkg : PackageData.t)
  (m : PackageDataMap) :
  insertPkgIntoMap repo pkg m
  = upsert (PackageData.name pkg) JsMap.empty
      (upsert (PackageData.license pkg) JsMap.empty
         (upsert (PackageData.version pkg) []
            (fun repos => repos ++ [mappedOf repo pkg])))
      m.
Proof.
  unfold insertPkgIntoMap, upsert, mappedOf. cbv zeta.
  repeat (rewrite JsMapFacts.get_ensure; cbn [orElse]).
  rewrite !JsMapFacts.set_ensure. reflexivity.
Qed.

Lemma gather_upsert {V B : Type} (f : V -> list B) (k : string) (d : V)
  (g : V -> V) (x : B) (m : JsMap.t V) :
  f d = [] ->
  (forall v, Permutation (f (g v)) (x :: f v)) ->
  Permutation (gather f (upsert k d g m)) (x :: gather f m).
Proof.
  intros Hd Hg. unfold upsert, gather.
  induction m as [|[k0 v0] rest IH]; simpl.
  - rewrite app_nil_r. rewrite Hg, Hd. reflexivity.
  - destruct (String.eqb_spec k0 k) as [->|Hne]; simpl.
    + rewrite Hg. reflexivity.
    + rewrite IH. symmetry. apply Permutation_middle.
Qed.

Lemma storeRepos_insertPkgIntoMap (repo : string) (pkg : PackageData.t)
  (m : PackageDataMap) :
  Permutation (storeRepos (insertPkgIntoMap repo pkg m)) (repo :: storeRepos m).
Proof.
  rewrite insertPkgIntoMap_upsert. unfold storeRepos.
  apply gather_upsert; [reflexivity|]. intros byLicense.
  apply gather_upsert; [reflexivity|]. intros byVersion.
  apply gather_upsert; [reflexivity|]. intros repos.
  rewrite map_app. simpl. symmetry. apply Permutation_cons_append.
Qed.

(** Filing a package always adds an entry: a map that is unchanged received
    nothing. *)
Lemma insertPkgIntoMap_adds_entry (repo : string) (pkg : PackageData.t)
  (m : PackageDataMap) :
  List.length (storeRepos (insertPkgIntoMap repo pkg m))
  = S (List.length (storeRepos m))
  /\ insertPkgIntoMap repo pkg m <> m.
Proof.
  assert (H : List.length (storeRepos (insertPkgIntoMap repo pkg m))
              = S (List.length (storeRepos m))).
  { rewrite (Permutation_length (storeRepos_insertPkgIntoMap repo pkg m)).
    reflexivity. }
  split; [exact H|]. intros E. rewrite E in H. lia.
Qed.

(** ** Filing the packages of a repository *)

Section ClassifyFacts.

Variable licenseBlacklist : list string.
Variable ignorePackagesRegex : list string.
Variable regExpTest : string -> string -> bool.

Local Abbreviation ignored := (ignored ignorePackagesRegex regExpTest).
Local Abbreviation updateMaps :=
  (updateMaps licenseBlacklist ignorePackagesRegex regExpTest).
Local Abbreviation classifyPkg := (classifyPkg licenseBlacklist).

Lemma blacklisted_iff (l : string) :
  existsb (String.eqb l) licenseBlacklist = true <-> In l licenseBlacklist.
Proof.
  rewrite existsb_exists. split.
  - intros [x [Hin Heq]]. apply String.eqb_eq in Heq. now subst.
  - intros Hin. exists l. split; [assumption|apply String.eqb_refl].
Qed.

Lemma updateMaps_single_kept (repo : string) (pkg : Resolved.t) (st : State) :
  ignored (Resolved.name pkg) = false ->
  updateMaps (single repo pkg) st
  = let '(st', affected) := classifyPkg repo (st, false) pkg in
    if affected then incAffected st' else st'.
Proof.
  intros Hkeep. unfold updateMaps, single. simpl.
  rewrite Hkeep. reflexivity.
Qed.

Lemma updateMaps_single_ignored (repo : string) (pkg : Resolved.t) (st : State) :
  ignored (Resolved.name pkg) = true ->
  updateMaps (single repo pkg) st = st.
Proof.
  intros Hign. unfold updateMaps, single. simpl.
  rewrite Hign. reflexivity.
Qed.

Lemma updateMaps_single_undefined (repo : string) (pkg : Resolved.t)
  (st : State) :
  Resolved.license pkg = None -> updateMaps (single repo pkg) st = st.
Proof.
  intros Hnone.
  destruct (ignored (Resolved.name pkg)) eqn:Hign.
  - now apply updateMaps_single_ignored.
  - rewrite updateMaps_single_kept by assumption.
    unfold classifyPkg. now rewrite Hnone.
Qed.

(** The packages of a result are filed one after the other: the maps after
    a list of packages are the maps after its tail, starting from the maps
    after its head. *)
Lemma classifyPkg_stores (repo : string) (pkg : Resolved.t)
  (st1 st2 : State) (a1 a2 : bool) :
  stores st1 = stores st2 ->
  stores (fst (classifyPkg repo (st1, a1) pkg))
  = stores (fst (classifyPkg repo (st2, a2) pkg)).
Proof.
  unfold stores. intros [= Hb Hn]. unfold classifyPkg.
  destruct (Resolved.license pkg) as [l|]; simpl; [|congruence].
  destruct (l =? "Unknown"); simpl; [congruence|].
  destruct (existsb (String.eqb l) licenseBlacklist); simpl; congruence.
Qed.

Lemma fold_classifyPkg_stores (repo : string) (pkgs : list Resolved.t) :
  forall acc1 acc2,
    stores (fst acc1) = stores (fst acc2) ->
    stores (fst (fold_left (classifyPkg repo) pkgs acc1))
    = stores (fst (fold_left (classifyPkg repo) pkgs acc2)).
Proof.
  induction pkgs as [|pkg pkgs IH]; intros [st1 a1] [st2 a2] Heq; simpl.
  - exact Heq.
  - apply IH. now apply classifyPkg_stores.
Qed.

Lemma stores_updateMaps (repo : string) (pkgs : list Resolved.t) (st : State) :
  stores (updateMaps (Some {| RepoResult.repo := repo;
                              RepoResult.packages := pkgs |}) st)
  = stores (fst (fold_left (classifyPkg repo)
                   (filter (fun pkg => negb (ignored (Resolved.name pkg))) pkgs)
                   (st, false))).
Proof.
  unfold updateMaps. simpl.
  destruct (fold_left _ _ _) as [st' affected]. simpl.
  destruct affected; reflexivity.
Qed.

Lemma stores_updateMaps_cons (repo : string) (pkg : Resolved.t)
  (pkgs : list Resolved.t) (st : State) :
  stores (updateMaps (Some {| RepoResult.repo := repo;
                              RepoResult.packages := pkg :: pkgs |}) st)
  = stores (updateMaps (Some {| RepoResult.repo := repo;
                                RepoResult.packages := pkgs |})
              (updateMaps (single repo pkg) st)).
Proof.
  rewrite !stores_updateMaps. cbn [filter].
  destruct (ignored (Resolved.name pkg)) eqn:Hign; cbn [negb fold_left].
  - now rewrite updateMaps_single_ignored.
  - apply fold_classifyPkg_stores. cbn [fst].
    rewrite updateMaps_single_kept by assumption.
    destruct (classifyPkg repo (st, false) pkg) as [st' affected]. cbn [fst].
    destruct affected; reflexivity.
Qed.

(** C1, as the code has it.  A package that no ignore pattern matches is
    filed in the missing-license map when its license is "Unknown", whether
    or not the blacklist names "Unknown"; only otherwise is it filed in the
    blacklist map, when the blacklist names its license; in every other case
    the state is left as it was. *)
Theorem classification_tests_unknown_first
  (repo : string) (pkg : Resolved.t) (st : State) :
  ignored (Resolved.name pkg) = false ->
  let st' := updateMaps (single repo pkg) st in
  (Resolved.license pkg = Some "Unknown" ->
     noLicenseMap st'
     = insertPkgIntoMap repo (asPackageData pkg "Unknown") (noLicenseMap st)
     /\ blacklistMap st' = blacklistMap st)
  /\ (forall l, Resolved.license pkg = Some l -> l <> "Unknown" ->
      In l licenseBlacklist ->
        blacklistMap st'
        = insertPkgIntoMap repo (asPackageData pkg l) (blacklistMap st)
        /\ noLicenseMap st' = noLicenseMap st)
  /\ (forall l, Resolved.license pkg = Some l -> l <> "Unknown" ->
      ~ In l licenseBlacklist -> st' = st)
  /\ (Resolved.license pkg = None -> st' = st).
Proof.
  intros Hkeep st'. subst st'. rewrite updateMaps_single_kept by assumption.
  unfold classifyPkg.
  split; [|split; [|split]].
  - intros ->. simpl. split; reflexivity.
  - intros l -> Hl Hin.
    destruct (String.eqb_spec l "Unknown"); [contradiction|].
    apply blacklisted_iff in Hin. rewrite Hin. simpl. split; reflexivity.
  - intros l -> Hl Hnotin.
    destruct (String.eqb_spec l "Unknown"); [contradiction|].
    destruct (existsb (String.eqb l) licenseBlacklist) eqn:E; [|reflexivity].
    apply blacklisted_iff in E. contradiction.
  - intros ->. reflexivity.
Qed.

(** C6.  Filing a package changes at most one of the two maps, and changes
    neither when an ignore pattern matches its name. *)
Theorem classification_is_exclusive
  (repo : string) (pkg : Resolved.t) (st : State) :
  let st' := updateMaps (single repo pkg) st in
  (blacklistMap st' = blacklistMap st \/ noLicenseMap st' = noLicenseMap st)
  /\ (ignored (Resolved.name pkg) = true ->
      blacklistMap st' = blacklistMap st /\ noLicenseMap st' = noLicenseMap st).
Proof.
  intros st'. subst st'.
  destruct (ignored (Resolved.name pkg)) eqn:Hign.
  - rewrite updateMaps_single_ignored by assumption. auto.
  - split; [|discriminate].
    rewrite updateMaps_single_kept by assumption. unfold classifyPkg.
    destruct (Resolved.license pkg) as [l|]; [|now left].
    destruct (l =? "Unknown"); [now left|].
    destruct (existsb (String.eqb l) licenseBlacklist); [now right|now left].
Qed.

(** C10.  When a dependency has no explicit license and the registry
    answers, for its version or else for the latest one, with metadata that
    has no license field, the resolved license is undefined, not "Unknown",
    and filing the package leaves both maps, and the whole state, as they
    were. *)
Theorem unlicensed_registry_entry_is_not_filed
  (packageJson : string -> option string -> option Npm.Metadata)
  (relMap : JsMap.t string) (mainSpdxId : string) (dep : Sbom.Package)
  (repo : string) (st : State) :
  let name := orElse (Sbom.name dep) "" in
  let version := Sbom.versionInfo dep in
  let pkg := Npm.value (resolvePackage packageJson relMap mainSpdxId dep) in
  truthy (Sbom.licenseConcluded dep) = false ->
  packageJson name (Some version) = Some {| Npm.license := None |}
  \/ (packageJson name (Some version) = None
      /\ packageJson name None = Some {| Npm.license := None |}) ->
  Resolved.license pkg = None
  /\ Resolved.license pkg <> Some "Unknown"
  /\ updateMaps (single repo pkg) st = st.
Proof.
  intros name version pkg Himplicit Hregistry.
  assert (Hnone : Resolved.license pkg = None).
  { subst pkg name version.
    unfold resolvePackage, resolveLicenseFromNPM, fetchMetadata.
    unfold Npm.value, Npm.bind, Npm.ret. rewrite Himplicit.
    destruct Hregistry as [Hcur|[Hcur Hlatest]].
    - rewrite Hcur. reflexivity.
    - rewrite Hcur, Hlatest. reflexivity. }
  split; [exact Hnone|]. split.
  - rewrite Hnone. discriminate.
  - now apply updateMaps_single_undefined.
Qed.

End ClassifyFacts.

Lemma classification_tests_unknown_first_witness :
  let st := updateMaps ["GPL-3.0"] ["^eslint"] (fun _ _ => false)
              (single "app" (leftPad (Some "Unknown"))) initialState in
  ignored ["^eslint"] (fun _ _ => false) "left-pad" = false
  /\ noLicenseMap st
     = insertPkgIntoMap "app" (asPackageData (leftPad (Some "Unknown")) "Unknown")
         JsMap.empty
  /\ blacklistMap st = JsMap.empty.
Proof.
  split; [reflexivity|].
  exact (proj1 (classification_tests_unknown_first ["GPL-3.0"] ["^eslint"]
                  (fun _ _ => false) "app" (leftPad (Some "Unknown"))
                  initialState eq_refl) eq_refl).
Defined.

Lemma classification_is_exclusive_witness :
  let startsWith (pattern subject : string) := String.prefix pattern subject in
  let pkg := {| Resolved.name := "eslint-plugin-gpl";
                Resolved.isTransitiveDep := true;
                Resolved.version := "3.1.0";
                Resolved.license := Some "GPL-3.0";
                Resolved.resolveMode := "explicit" |} in
  let st := updateMaps ["GPL-3.0"] ["eslint"] startsWith (single "app" pkg)
              initialState in
  ignored ["eslint"] startsWith (Resolved.name pkg) = true
  /\ blacklistMap st = JsMap.empty /\ noLicenseMap st = JsMap.empty.
Proof.
  intros startsWith pkg st. split; [reflexivity|].
  exact (proj2 (classification_is_exclusive ["GPL-3.0"] ["eslint"] startsWith
                  "app" pkg initialState) eq_refl).
Defined.

(** C1, as the specification words it, fails: with "Unknown" on the
    blacklist, a package whose license is "Unknown" is not filed in the
    blacklist map but in the missing-license map. *)
Lemma unknown_on_blacklist_is_filed_as_missing :
  let blacklist := ["GPL-3.0"; "Unknown"] in
  let pkg := leftPad (Some "Unknown") in
  let st := updateMaps blacklist [] (fun _ _ => false) (single "app" pkg)
              initialState in
  In "Unknown" blacklist
  /\ ignored [] (fun _ _ => false) (Resolved.name pkg) = false
  /\ blacklistMap st = JsMap.empty
  /\ blacklistMap st
     <> insertPkgIntoMap "app" (asPackageData pkg "Unknown") JsMap.empty
  /\ noLicenseMap st
     = [("left-pad",
         [("Unknown",
           [("1.3.0",
             [{| Mapped.repo := "app";
                 Mapped.resolveMode := "npmCurrVer";
                 Mapped.isTransitiveDep := false |}])])])].
Proof.
  cbv zeta. split; [simpl; tauto|].
  split; [reflexivity|]. split; [reflexivity|].
  split; [discriminate|reflexivity].
Qed.

Lemma unlicensed_registry_entry_is_not_filed_witness :
  let registry (name : string) (version : option string) :=
    Some {| Npm.license := None |} in
  let dep := {| Sbom.SPDXID := Some "SPDXRef-npm-left-pad";
                Sbom.name := Some "left-pad";
                Sbom.versionInfo := "1.3.0";
                Sbom.licenseConcluded := None |} in
  let pkg := Npm.value (resolvePackage registry JsMap.empty "SPDXRef-root" dep) in
  Resolved.license pkg = None
  /\ Resolved.license pkg <> Some "Unknown"
  /\ updateMaps ["GPL-3.0"] [] (fun _ _ => false) (single "app" pkg) initialState
     = initialState.
Proof.
  intros registry dep pkg.
  exact (unlicensed_registry_entry_is_not_filed ["GPL-3.0"] []
           (fun _ _ => false) registry JsMap.empty "SPDXRef-root" dep "app"
           initialState eq_refl (or_introl eq_refl)).
Defined.

(** ** The job queue *)

Lemma filter_Permutation {A : Type} (f : A -> bool) (l l' : list A) :
  Permutation l l' -> Permutation (filter f l) (filter f l').
Proof.
  induction 1 as [|x l l' _ IH|x y l|l l' l'' _ IH1 _ IH2]; simpl.
  - constructor.
  - destruct (f x); [now constructor|assumption].
  - destruct (f x), (f y); try reflexivity. constructor.
  - now transitivity (filter f l').
Qed.

Lemma Interleaved_Permutation {A : Type} (jobs : list (list A))
  (schedule : list A) :
  Interleaved jobs schedule -> Permutation schedule (List.concat jobs).
Proof.
  induction 1 as [jobs Hall|before after a j schedule _ IH].
  - induction Hall as [|j jobs -> _ IH]; simpl; [constructor|exact IH].
  - rewrite concat_app in *. simpl in *. rewrite IH.
    apply Permutation_middle.
Qed.

Lemma job_failed
  (packageJson : string -> option string -> option Npm.Metadata)
  (j : string * Response) :
  failed packageJson j = true -> jobOf packageJson j = [IncFailed].
Proof.
  destruct j as [n [|sbom]]; unfold failed, jobOf, job; simpl.
  - reflexivity.
  - destruct (Sbom.packages sbom); [discriminate|reflexivity].
Qed.

Lemma job_succeeded
  (packageJson : string -> option string -> option Npm.Metadata)
  (j : string * Response) :
  failed packageJson j = false ->
  exists res, jobOf packageJson j = [IncScanned; UpdateMaps res]
              /\ RepoResult.repo res = fst j.
Proof.
  destruct j as [n [|sbom]]; unfold failed, jobOf, job; simpl.
  - discriminate.
  - destruct (Sbom.packages sbom); [|discriminate].
    intros _. eexists. split; reflexivity.
Qed.

Lemma count_jobs
  (packageJson : string -> option string -> option Npm.Metadata)
  (jobs : list (string * Response)) :
  List.length (filter isIncFailed (List.concat (map (jobOf packageJson) jobs)))
  = List.length (filter (failed packageJson) jobs)
  /\ List.length (filter isIncScanned (List.concat (map (jobOf packageJson) jobs)))
     = List.length (filter (succeeded packageJson) jobs).
Proof.
  unfold succeeded.
  induction jobs as [|j jobs [IHf IHs]]; simpl; [split; reflexivity|].
  rewrite !filter_app, !length_app, IHf, IHs.
  destruct (failed packageJson j) eqn:E; simpl.
  - rewrite (job_failed _ _ E). split; reflexivity.
  - destruct (job_succeeded _ _ E) as [res [-> _]]. split; reflexivity.
Qed.

Section QueueFacts.

Variable licenseBlacklist : list string.
Variable ignorePackagesRegex : list string.
Variable regExpTest : string -> string -> bool.

Local Abbreviation updateMaps :=
  (updateMaps licenseBlacklist ignorePackagesRegex regExpTest).
Local Abbreviation classifyPkg := (classifyPkg licenseBlacklist).
Local Abbreviation perform :=
  (perform licenseBlacklist ignorePackagesRegex regExpTest).
Local Abbreviation run := (run licenseBlacklist ignorePackagesRegex regExpTest).

Lemma classifyPkg_counters (repo : string) (acc : State * bool)
  (pkg : Resolved.t) :
  nFailed (fst (classifyPkg repo acc pkg)) = nFailed (fst acc)
  /\ nScanned (fst (classifyPkg repo acc pkg)) = nScanned (fst acc).
Proof.
  destruct acc as [st affected]. unfold classifyPkg.
  destruct (Resolved.license pkg) as [l|]; [|split; reflexivity].
  destruct (l =? "Unknown"); [split; reflexivity|].
  destruct (existsb (String.eqb l) licenseBlacklist); split; reflexivity.
Qed.

Lemma classifyPkg_repos (repo : string) (acc : State * bool)
  (pkg : Resolved.t) (r : string) :
  In r (filedRepos (fst (classifyPkg repo acc pkg))) ->
  r = repo \/ In r (filedRepos (fst acc)).
Proof.
  destruct acc as [st affected]. unfold classifyPkg, filedRepos.
  destruct (Resolved.license pkg) as [l|]; [|now right].
  destruct (l =? "Unknown"); simpl.
  - rewrite !in_app_iff. intros [H|H]; [right; now left|].
    apply (Permutation_in _ (storeRepos_insertPkgIntoMap _ _ _)) in H.
    destruct H as [<-|H]; [now left|right; now right].
  - destruct (existsb (String.eqb l) licenseBlacklist); simpl; [|now right].
    rewrite !in_app_iff. intros [H|H]; [|right; now right].
    apply (Permutation_in _ (storeRepos_insertPkgIntoMap _ _ _)) in H.
    destruct H as [<-|H]; [now left|right; now left].
Qed.

Lemma fold_classifyPkg_facts (repo : string) (pkgs : list Resolved.t) :
  forall acc,
    let acc' := fold_left (classifyPkg repo) pkgs acc in
    nFailed (fst acc') = nFailed (fst acc)
    /\ nScanned (fst acc') = nScanned (fst acc)
    /\ (forall r, In r (filedRepos (fst acc')) ->
                  r = repo \/ In r (filedRepos (fst acc))).
Proof.
  induction pkgs as [|pkg pkgs IH]; intros acc; simpl.
  - repeat split; auto.
  - destruct (IH (classifyPkg repo acc pkg)) as [Hf [Hs Hr]].
    destruct (classifyPkg_counters repo acc pkg) as [Hf' Hs'].
    repeat split; [congruence|congruence|].
    intros r Hin. destruct (Hr r Hin) as [->|Hin']; [now left|].
    now apply classifyPkg_repos in Hin'.
Qed.

Lemma updateMaps_facts (res : RepoResult.t) (st : State) :
  nFailed (updateMaps (Some res) st) = nFailed st
  /\ nScanned (updateMaps (Some res) st) = nScanned st
  /\ (forall r, In r (filedRepos (updateMaps (Some res) st)) ->
                r = RepoResult.repo res \/ In r (filedRepos st)).
Proof.
  unfold updateMaps.
  match goal with
  | |- context [fold_left ?f ?l ?a] =>
      destruct (fold_classifyPkg_facts (RepoResult.repo res) l a) as [Hf [Hs Hr]];
      destruct (fold_left f l a) as [st' affected]
  end.
  simpl in *. destruct affected; repeat split; auto.
Qed.

Lemma run_facts (schedule : list Action) :
  forall st,
    nFailed (run schedule st)
    = nFailed st + List.length (filter isIncFailed schedule)
    /\ nScanned (run schedule st)
       = nScanned st + List.length (filter isIncScanned schedule)
    /\ (forall r, In r (filedRepos (run schedule st)) ->
          In r (filedRepos st)
          \/ exists res, In (UpdateMaps res) schedule
                         /\ RepoResult.repo res = r).
Proof.
  unfold run. induction schedule as [|a schedule IH]; intros st.
  - simpl. repeat split; auto.
  - assert (Hstep :
      nFailed (perform st a)
      = nFailed st + List.length (filter isIncFailed [a])
      /\ nScanned (perform st a)
         = nScanned st + List.length (filter isIncScanned [a])
      /\ (forall r, In r (filedRepos (perform st a)) ->
            In r (filedRepos st)
            \/ exists res, a = UpdateMaps res /\ RepoResult.repo res = r)).
    { destruct a as [| |res].
      - simpl. repeat split; try lia. auto.
      - simpl. repeat split; try lia. auto.
      - change (perform st (UpdateMaps res)) with (updateMaps (Some res) st).
        destruct (updateMaps_facts res st) as [Hf' [Hs' Hr']].
        split; [rewrite Hf'; simpl; lia|]. split; [rewrite Hs'; simpl; lia|].
        intros r Hin. destruct (Hr' r Hin) as [->|H]; [|now left].
        right. exists res. auto. }
    destruct Hstep as [Sf [Ss Sr]].
    change (fold_left perform (a :: schedule) st)
      with (fold_left perform schedule (perform st a)).
    destruct (IH (perform st a)) as [Hf [Hs Hr]].
    change (a :: schedule) with ([a] ++ schedule).
    rewrite !filter_app, !length_app.
    split; [lia|]. split; [lia|].
    intros r Hin. destruct (Hr r Hin) as [H|[res [H1 H2]]].
    + destruct (Sr r H) as [H'|[res [-> H2]]]; [now left|].
      right. exists res. split; [now left|assumption].
    + right. exists res. split; [now right|assumption].
Qed.

(** C8.  However the jobs of a batch interleave, every job that fails
    performs one step, the increment of the failed counter, and nothing
    else; every other job is counted as scanned, whether or not a sibling
    failed; and every entry of the two maps names the repository of a job
    that did not fail, so a failed repository contributes no entry. *)
Theorem failed_job_is_isolated
  (packageJson : string -> option string -> option Npm.Metadata)
  (jobs : list (string * Response)) (schedule : list Action) :
  Interleaved (map (jobOf packageJson) jobs) schedule ->
  let st := run schedule initialState in
  nFailed st = List.length (filter (failed packageJson) jobs)
  /\ nScanned st = List.length (filter (succeeded packageJson) jobs)
  /\ (forall j, In j jobs -> failed packageJson j = true ->
                jobOf packageJson j = [IncFailed])
  /\ (forall r, In r (filedRepos st) ->
        exists j, In j jobs /\ fst j = r /\ failed packageJson j = false).
Proof.
  intros Hsched st. subst st.
  apply Interleaved_Permutation in Hsched.
  destruct (run_facts schedule initialState) as [Hf [Hs Hr]].
  destruct (count_jobs packageJson jobs) as [Cf Cs].
  split; [|split; [|split]].
  - rewrite Hf. simpl.
    rewrite (Permutation_length (filter_Permutation isIncFailed Hsched)).
    exact Cf.
  - rewrite Hs. simpl.
    rewrite (Permutation_length (filter_Permutation isIncScanned Hsched)).
    exact Cs.
  - intros j _ Hj. now apply job_failed.
  - intros r Hin. destruct (Hr r Hin) as [H|[res [Hres Hrepo]]].
    { destruct H. }
    apply (Permutation_in _ Hsched) in Hres.
    apply in_concat in Hres as [acts [Hacts Hres]].
    apply in_map_iff in Hacts as [j [<- Hj]].
    exists j. destruct (failed packageJson j) eqn:E.
    + rewrite (job_failed _ _ E) in Hres.
      destruct Hres as [Hres|[]]. discriminate Hres.
    + destruct (job_succeeded _ _ E) as [res' [Hjob Hrepo']].
      rewrite Hjob in Hres.
      destruct Hres as [Hres|[Hres|[]]]; [discriminate Hres|].
      injection Hres as ->. repeat split; congruence.
Qed.

End QueueFacts.

Lemma failed_job_is_isolated_witness :
  let schedule := [IncScanned; IncFailed; UpdateMaps appResult] in
  let st := run ["GPL-3.0"] [] (fun _ _ => false) schedule initialState in
  Interleaved (map (jobOf (fun _ _ => None)) brokenAndApp) schedule
  /\ nFailed st = 1 /\ nScanned st = 1.
Proof.
  intros schedule st.
  assert (H : Interleaved (map (jobOf (fun _ _ => None)) brokenAndApp) schedule).
  { exact (Interleaved_step [[IncFailed]] [] IncScanned [UpdateMaps appResult]
             (Interleaved_step [] [[UpdateMaps appResult]] IncFailed []
                (Interleaved_step [[]] [] (UpdateMaps appResult) []
                   (Interleaved_done
                      (Forall_cons _ eq_refl
                         (Forall_cons _ eq_refl (Forall_nil _))))))). }
  split; [exact H|].
  destruct (failed_job_is_isolated ["GPL-3.0"] [] (fun _ _ => false)
              (fun _ _ => None) brokenAndApp H) as [Hf [Hs _]].
  split; [exact Hf|exact Hs].
Defined.

(** ** Sorting *)

Section SortFacts.

Context {A : Type}.
Variable cmp : string -> string -> comparison.
Variable key : A -> string.
Hypothesis collation : Collation cmp.

Local Abbreviation byKey := (fun a b : A => cmp (key a) (key b)).
Local Abbreviation le := (fun a b : A => cmp (key a) (key b) <> Gt).

Lemma insertSorted_Permutation (x : A) (l : list A) :
  Permutation (insertSorted byKey x l) (x :: l).
Proof.
  induction l as [|y l IH]; simpl; [reflexivity|].
  destruct (cmp (key x) (key y)); try reflexivity.
  rewrite IH. apply perm_swap.
Qed.

Lemma sortBy_Permutation (l : list A) : Permutation (sortBy byKey l) l.
Proof.
  induction l as [|x l IH]; simpl; [constructor|].
  rewrite insertSorted_Permutation. now constructor.
Qed.

Lemma insertSorted_HdRel (x y : A) (l : list A) :
  le y x -> HdRel le y l -> HdRel le y (insertSorted byKey x l).
Proof.
  intros Hyx Hhd. destruct l as [|z l]; simpl; [now constructor|].
  inversion Hhd; subst.
  destruct (cmp (key x) (key z)); now constructor.
Qed.

Lemma insertSorted_Sorted (x : A) (l : list A) :
  Sorted le l -> Sorted le (insertSorted byKey x l).
Proof.
  induction l as [|y l IH]; intros Hs; simpl.
  - repeat constructor.
  - destruct (cmp (key x) (key y)) eqn:E.
    + constructor; [assumption|]. constructor. rewrite E. discriminate.
    + constructor; [assumption|]. constructor. rewrite E. discriminate.
    + inversion Hs; subst. constructor; [now apply IH|].
      apply insertSorted_HdRel; [|assumption].
      rewrite (collation_swap collation), E. discriminate.
Qed.

Lemma sortBy_sortedOn (l : list A) : sortedOn cmp key (sortBy byKey l).
Proof.
  unfold sortedOn. induction l as [|x l IH]; simpl; [constructor|].
  now apply insertSorted_Sorted.
Qed.

Lemma sortedOn_StronglySorted (l : list A) :
  sortedOn cmp key l -> StronglySorted le l.
Proof.
  apply Sorted_StronglySorted. intros a b c.
  apply (collation_trans collation).
Qed.

Lemma sorted_Permutation_eq (l1 : list A) :
  forall l2,
    StronglySorted le l1 -> StronglySorted le l2 ->
    Permutation l1 l2 ->
    NoDup (map key l1) -> separates cmp key l1 ->
    l1 = l2.
Proof.
  induction l1 as [|a l1 IH]; intros l2 S1 S2 Hperm Hnd Hsep.
  - apply Permutation_nil in Hperm. now subst.
  - destruct l2 as [|b l2].
    { symmetry in Hperm. apply Permutation_nil in Hperm. discriminate. }
    apply StronglySorted_inv in S1 as [S1 F1].
    apply StronglySorted_inv in S2 as [S2 F2].
    inversion Hnd as [|? ? Hnotin Hnd']; subst.
    assert (Hab : a = b).
    { assert (Ha : In a (b :: l2)) by (apply (Permutation_in _ Hperm); now left).
      assert (Hb : In b (a :: l1)).
      { apply (Permutation_in _ (Permutation_sym Hperm)). now left. }
      destruct Ha as [<-|Ha]; [reflexivity|].
      destruct Hb as [<-|Hb]; [reflexivity|].
      exfalso. apply Hnotin.
      rewrite Forall_forall in F1, F2.
      specialize (F1 b Hb). specialize (F2 a Ha). simpl in F1, F2.
      assert (E : cmp (key a) (key b) = Eq).
      { rewrite (collation_swap collation) in F2.
        destruct (cmp (key a) (key b)); simpl in *; congruence. }
      rewrite (Hsep a b (or_introl eq_refl) (or_intror Hb) E).
      now apply in_map. }
    subst b. f_equal.
    apply IH; try assumption.
    + now apply Permutation_cons_inv in Hperm.
    + intros x y Hx Hy. apply Hsep; now right.
Qed.

Lemma sortBy_Permutation_eq (l1 l2 : list A) :
  Permutation l1 l2 ->
  NoDup (map key l1) -> separates cmp key l1 ->
  sortBy byKey l1 = sortBy byKey l2.
Proof.
  intros Hperm Hnd Hsep.
  apply sorted_Permutation_eq.
  - apply sortedOn_StronglySorted, sortBy_sortedOn.
  - apply sortedOn_StronglySorted, sortBy_sortedOn.
  - rewrite !sortBy_Permutation. assumption.
  - apply (Permutation_NoDup (l := map key l1)); [|assumption].
    apply Permutation_map. symmetry. apply sortBy_Permutation.
  - intros a b Ha Hb. apply Hsep.
    + apply (Permutation_in _ (sortBy_Permutation l1)). assumption.
    + apply (Permutation_in _ (sortBy_Permutation l1)). assumption.
Qed.

End SortFacts.

(** ** Aggregation, one level at a time *)

Lemma alist_Permutation {O : Type} (a b : JsMap.t O) :
  NoDup (JsMap.keys a) -> NoDup (JsMap.keys b) ->
  (forall n, JsMap.get n a = JsMap.get n b) ->
  Permutation a b.
Proof.
  intros Ha Hb Hget.
  apply NoDup_Permutation.
  - now apply NoDup_map_inv in Ha.
  - now apply NoDup_map_inv in Hb.
  - intros [n o]. split; intros Hin.
    + apply JsMapFacts.get_In. rewrite <- Hget. now apply JsMapFacts.In_get.
    + apply JsMapFacts.get_In. rewrite Hget. now apply JsMapFacts.In_get.
Qed.

Section Level.

Context {V O E : Type}.
Variable cmp : string -> string -> comparison.
Hypothesis collation : Collation cmp.
Variable k : Fact -> string.
Variable d : V.
Variable step : Fact -> V -> V.
Variable render : V -> O.
Variable mk : string -> O -> E.
Variable keyOf : E -> string.
Hypothesis keyOf_mk : forall n o, keyOf (mk n o) = n.

(** The level below renders alike the facts it is given in any order. *)
Variable below : list Fact -> Prop.
Hypothesis render_Permutation :
  forall l1 l2,
    Permutation l1 l2 -> below l1 ->
    render (fold_left (fun v t => step t v) l1 d)
    = render (fold_left (fun v t => step t v) l2 d).

Local Abbreviation file := (file k d step).
Local Abbreviation renderLevel := (renderLevel cmp render mk keyOf).
Local Abbreviation here := (here cmp k below).
Local Abbreviation rendered := (rendered render).

Lemma get_fold_file (n : string) (ts : list Fact) :
  forall m,
    JsMap.get n (fold_left (fun m t => file t m) ts m)
    = match under k n ts with
      | [] => JsMap.get n m
      | sel => Some (fold_left (fun v t => step t v) sel
                       (orElse (JsMap.get n m) d))
      end.
Proof.
  unfold under. induction ts as [|t ts IH]; intros m; simpl; [reflexivity|].
  rewrite IH. clear IH. unfold file, upsert. rewrite !JsMapFacts.get_set.
  destruct (String.eqb_spec (k t) n) as [<-|Hne];
    destruct (filter _ ts); simpl; reflexivity.
Qed.

Lemma NoDup_keys_fold_file (ts : list Fact) :
  forall m,
    NoDup (JsMap.keys m) ->
    NoDup (JsMap.keys (fold_left (fun m t => file t m) ts m)).
Proof.
  induction ts as [|t ts IH]; intros m Hnd; simpl; [assumption|].
  apply IH. unfold file, upsert. now apply JsMapFacts.NoDup_keys_set.
Qed.

Lemma keys_rendered (m : JsMap.t V) : JsMap.keys (rendered m) = JsMap.keys m.
Proof.
  unfold rendered, JsMap.keys. rewrite map_map. reflexivity.
Qed.

Lemma get_rendered (n : string) (m : JsMap.t V) :
  JsMap.get n (rendered m) = option_map render (JsMap.get n m).
Proof.
  induction m as [|[k0 v0] m IH]; simpl; [reflexivity|].
  destruct (k0 =? n); [reflexivity|exact IH].
Qed.

Lemma renderLevel_rendered (m : JsMap.t V) :
  renderLevel m
  = sortBy (fun a b => cmp (keyOf a) (keyOf b))
      (map (fun kv => mk (fst kv) (snd kv)) (rendered m)).
Proof.
  unfold renderLevel, rendered. rewrite map_map. reflexivity.
Qed.

Lemma get_rendered_fold (n : string) (ts : list Fact) :
  JsMap.get n (rendered (fold_left (fun m t => file t m) ts JsMap.empty))
  = match under k n ts with
    | [] => None
    | sel => Some (render (fold_left (fun v t => step t v) sel d))
    end.
Proof.
  rewrite get_rendered, get_fold_file. simpl.
  destruct (under k n ts); reflexivity.
Qed.

Lemma key_of_fold (n : string) (ts : list Fact) :
  In n (JsMap.keys (fold_left (fun m t => file t m) ts JsMap.empty)) ->
  exists t, In t ts /\ k t = n.
Proof.
  intros Hin.
  destruct (JsMap.get n (fold_left (fun m t => file t m) ts JsMap.empty))
    eqn:G.
  - rewrite get_fold_file in G. unfold under in G.
    destruct (filter (fun t => k t =? n) ts) as [|t sel] eqn:F;
      [discriminate|].
    assert (Ht : In t (filter (fun t => k t =? n) ts)) by (rewrite F; now left).
    apply filter_In in Ht as [Ht Hk]. apply String.eqb_eq in Hk. eauto.
  - apply JsMapFacts.get_None_keys in G. contradiction.
Qed.

(** Facts filed in any order render alike. *)
Lemma renderLevel_Permutation (l1 l2 : list Fact) :
  Permutation l1 l2 -> here l1 ->
  renderLevel (fold_left (fun m t => file t m) l1 JsMap.empty)
  = renderLevel (fold_left (fun m t => file t m) l2 JsMap.empty).
Proof.
  intros Hperm [Hsep Hbelow].
  rewrite !renderLevel_rendered.
  set (m1 := fold_left (fun m t => file t m) l1 JsMap.empty).
  set (m2 := fold_left (fun m t => file t m) l2 JsMap.empty).
  assert (Hnd1 : NoDup (JsMap.keys m1)).
  { apply NoDup_keys_fold_file. constructor. }
  assert (Hnd2 : NoDup (JsMap.keys m2)).
  { apply NoDup_keys_fold_file. constructor. }
  apply (sortBy_Permutation_eq (key := keyOf) collation).
  - apply Permutation_map. apply alist_Permutation.
    + now rewrite keys_rendered.
    + now rewrite keys_rendered.
    + intros n. subst m1 m2. rewrite !get_rendered_fold.
      assert (Hsel : Permutation (under k n l1) (under k n l2))
        by now apply filter_Permutation.
      specialize (Hbelow n).
      destruct (under k n l1) as [|t1 sel1] eqn:U1.
      * apply Permutation_nil in Hsel. now rewrite Hsel.
      * destruct (under k n l2) as [|t2 sel2] eqn:U2.
        { symmetry in Hsel. apply Permutation_nil in Hsel. discriminate. }
        f_equal. now apply render_Permutation.
  - rewrite map_map.
    erewrite map_ext; [|intros kv; apply keyOf_mk].
    fold (JsMap.keys (rendered m1)). now rewrite keys_rendered.
  - intros a b Ha Hb.
    apply in_map_iff in Ha as [[na oa] [<- Ha]].
    apply in_map_iff in Hb as [[nb ob] [<- Hb]].
    rewrite !keyOf_mk. simpl.
    assert (Ka : In na (JsMap.keys m1)).
    { rewrite <- keys_rendered. change na with (fst (na, oa)).
      now apply in_map. }
    assert (Kb : In nb (JsMap.keys m1)).
    { rewrite <- keys_rendered. change nb with (fst (nb, ob)).
      now apply in_map. }
    apply key_of_fold in Ka as [ta [Hta <-]].
    apply key_of_fold in Kb as [tb [Htb <-]].
    now apply Hsep.
Qed.

Lemma renderLevel_sortedOn (m : JsMap.t V) :
  sortedOn cmp keyOf (renderLevel m).
Proof. apply sortBy_sortedOn. exact collation. Qed.

End Level.

(** ** Serialisation does not depend on the order of insertion *)

Lemma separates_filter {A : Type} (cmp : string -> string -> comparison)
  (key : A -> string) (p : A -> bool) (l : list A) :
  separates cmp key l -> separates cmp key (filter p l).
Proof.
  intros Hsep a b Ha Hb.
  apply filter_In in Ha as [Ha _]. apply filter_In in Hb as [Hb _].
  now apply Hsep.
Qed.

Lemma NoDup_map_filter {A B : Type} (key : A -> B) (keep : A -> bool) :
  forall l : list A, NoDup (map key l) -> NoDup (map key (filter keep l)).
Proof.
  intros l. induction l as [|x l IH]; simpl; [trivial|].
  intros Hnd. inversion Hnd as [|? ? Hnotin Hnd']; subst.
  destruct (keep x); simpl; [|now apply IH].
  constructor; [|now apply IH].
  intros Hin. apply Hnotin.
  apply in_map_iff in Hin as [y [Hy Hin]].
  apply filter_In in Hin as [Hin _].
  rewrite <- Hy. now apply in_map.
Qed.

(** Facts that differ as (key, rest) pairs and share the key differ in the
    rest. *)
Lemma NoDup_under {B : Type} (k : Fact -> string) (rest : Fact -> B)
  (n : string) (ts : list Fact) :
  NoDup (map (fun t => (k t, rest t)) ts) ->
  NoDup (map rest (under k n ts)).
Proof.
  intros Hnd. unfold under.
  apply (NoDup_map_filter _ (fun t => k t =? n) ts) in Hnd.
  apply (NoDup_map_inv (fun r => (n, r))).
  rewrite map_map.
  erewrite map_ext_in; [exact Hnd|].
  intros t Ht. apply filter_In in Ht as [_ Hk].
  apply String.eqb_eq in Hk. now rewrite Hk.
Qed.

Section OrderIndependence.

Variable localeCompare : string -> string -> comparison.
Hypothesis collation : Collation localeCompare.

Local Abbreviation reposOk := (reposOk localeCompare).
Local Abbreviation versionsOk := (versionsOk localeCompare).
Local Abbreviation licensesOk := (licensesOk localeCompare).
Local Abbreviation namesOk := (namesOk localeCompare).
Local Abbreviation sortedVersionEntry := (sortedVersionEntry localeCompare).
Local Abbreviation sortedLicenseEntry := (sortedLicenseEntry localeCompare).
Local Abbreviation sortedNameEntry := (sortedNameEntry localeCompare).
Local Abbreviation sortedOutput := (sortedOutput localeCompare).

Lemma insertPkgIntoMap_fileName (t : Fact) (m : PackageDataMap) :
  insertPkgIntoMap (fst t) (snd t) m = fileName t m.
Proof. apply insertPkgIntoMap_upsert. Qed.

Lemma insertAll_fileName (ts : list Fact) :
  insertAll ts = fold_left (fun m t => fileName t m) ts JsMap.empty.
Proof.
  unfold insertAll. generalize (@JsMap.empty (JsMap.t (JsMap.t (list Mapped.t)))).
  induction ts as [|t ts IH]; intros m; simpl; [reflexivity|].
  now rewrite insertPkgIntoMap_fileName, IH.
Qed.

Lemma fold_appendRepo (ts : list Fact) :
  forall repos,
    fold_left (fun v t => appendRepo t v) ts repos
    = repos ++ map (fun t => mappedOf (fst t) (snd t)) ts.
Proof.
  induction ts as [|t ts IH]; intros repos; simpl.
  - now rewrite app_nil_r.
  - rewrite IH. unfold appendRepo. now rewrite <- app_assoc.
Qed.

Lemma repos_Permutation (l1 l2 : list Fact) :
  Permutation l1 l2 -> reposOk l1 ->
  sortBy (byRepo localeCompare) (fold_left (fun v t => appendRepo t v) l1 [])
  = sortBy (byRepo localeCompare) (fold_left (fun v t => appendRepo t v) l2 []).
Proof.
  intros Hperm [Hnd Hsep]. rewrite !fold_appendRepo. simpl.
  apply (sortBy_Permutation_eq (key := Mapped.repo) collation).
  - now apply Permutation_map.
  - rewrite map_map. exact Hnd.
  - intros a b Ha Hb.
    apply in_map_iff in Ha as [ta [<- Ha]].
    apply in_map_iff in Hb as [tb [<- Hb]].
    simpl. now apply Hsep.
Qed.

Lemma versions_Permutation (l1 l2 : list Fact) :
  Permutation l1 l2 -> versionsOk l1 ->
  arraifyVersions localeCompare
    (fold_left (fun m t => fileVersion t m) l1 JsMap.empty)
  = arraifyVersions localeCompare
      (fold_left (fun m t => fileVersion t m) l2 JsMap.empty).
Proof.
  intros Hperm Hok.
  exact (renderLevel_Permutation collation [] appendRepo
           (sortBy (byRepo localeCompare))
           Out.Build_VersionEntry Out.version (fun _ _ => eq_refl)
           repos_Permutation Hperm Hok).
Qed.

Lemma licenses_Permutation (l1 l2 : list Fact) :
  Permutation l1 l2 -> licensesOk l1 ->
  arraifyLicenses localeCompare
    (fold_left (fun m t => fileLicense t m) l1 JsMap.empty)
  = arraifyLicenses localeCompare
      (fold_left (fun m t => fileLicense t m) l2 JsMap.empty).
Proof.
  intros Hperm Hok.
  exact (renderLevel_Permutation collation JsMap.empty fileVersion
           (arraifyVersions localeCompare)
           Out.Build_LicenseEntry Out.license (fun _ _ => eq_refl)
           versions_Permutation Hperm Hok).
Qed.

Lemma names_Permutation (l1 l2 : list Fact) :
  Permutation l1 l2 -> namesOk l1 ->
  arraifyMap localeCompare (insertAll l1)
  = arraifyMap localeCompare (insertAll l2).
Proof.
  intros Hperm Hok. rewrite !insertAll_fileName.
  exact (renderLevel_Permutation collation JsMap.empty fileLicense
           (arraifyLicenses localeCompare)
           Out.Build_NameEntry Out.name (fun _ _ => eq_refl)
           licenses_Permutation Hperm Hok).
Qed.

Lemma namesOk_intro (ts : list Fact) :
  NoDup (map factKey ts) ->
  separates localeCompare factName ts ->
  separates localeCompare factLicense ts ->
  separates localeCompare factVersion ts ->
  separates localeCompare factRepo ts ->
  namesOk ts.
Proof.
  intros Hnd Sn Sl Sv Sr.
  split; [exact Sn|]. intros n.
  split; [now apply separates_filter|]. intros l.
  split; [now repeat apply separates_filter|]. intros v.
  split; [|now repeat apply separates_filter].
  apply NoDup_under, NoDup_under, NoDup_under. exact Hnd.
Qed.

Lemma Forall_sortBy_map {A B : Type} (f : B -> B -> comparison)
  (g : A -> B) (P : B -> Prop) (l : list A) :
  (forall a, P (g a)) -> Forall P (sortBy f (map g l)).
Proof.
  intros H.
  assert (Hall : Forall P (map g l)).
  { apply Forall_forall. intros b Hb.
    apply in_map_iff in Hb as [a [<- _]]. apply H. }
  induction (map g l) as [|b bs IH]; simpl; [constructor|].
  inversion Hall; subst.
  assert (Hins : forall rest, Forall P rest -> Forall P (insertSorted f b rest)).
  { induction rest as [|c rest IHr]; simpl; intros Hrest.
    - now constructor.
    - destruct (f b c); try now constructor.
      inversion Hrest; subst. constructor; auto. }
  apply Hins. now apply IH.
Qed.

Lemma arraifyVersions_sorted (m : JsMap.t (list Mapped.t)) :
  sortedOn localeCompare Out.version (arraifyVersions localeCompare m)
  /\ Forall sortedVersionEntry (arraifyVersions localeCompare m).
Proof.
  split.
  - apply (sortBy_sortedOn Out.version collation).
  - apply Forall_sortBy_map. intros kv. unfold sortedVersionEntry. simpl.
    apply (sortBy_sortedOn Mapped.repo collation).
Qed.

Lemma arraifyLicenses_sorted (m : JsMap.t (JsMap.t (list Mapped.t))) :
  sortedOn localeCompare Out.license (arraifyLicenses localeCompare m)
  /\ Forall sortedLicenseEntry (arraifyLicenses localeCompare m).
Proof.
  split.
  - apply (sortBy_sortedOn Out.license collation).
  - apply Forall_sortBy_map. intros kv. apply arraifyVersions_sorted.
Qed.

Lemma arraifyMap_sorted (m : PackageDataMap) :
  sortedOutput (arraifyMap localeCompare m).
Proof.
  split.
  - apply (sortBy_sortedOn Out.name collation).
  - apply Forall_sortBy_map. intros kv. apply arraifyLicenses_sorted.
Qed.

(** C2.  Facts in which every (name, license, version, repository)
    combination occurs once, and whose names, licenses, versions and
    repository names [localeCompare] tells apart, serialise to the same
    arrays in whatever order they are inserted; the arrays are sorted by
    name, within a name by license, within a license by version, and the
    repositories of a version by repository name. *)
Theorem arraifyMap_order_independent (ts1 ts2 : list Fact) :
  Permutation ts1 ts2 ->
  NoDup (map factKey ts1) ->
  separates localeCompare factName ts1 ->
  separates localeCompare factLicense ts1 ->
  separates localeCompare factVersion ts1 ->
  separates localeCompare factRepo ts1 ->
  arraifyMap localeCompare (insertAll ts1)
  = arraifyMap localeCompare (insertAll ts2)
  /\ sortedOutput (arraifyMap localeCompare (insertAll ts1)).
Proof.
  intros Hperm Hnd Sn Sl Sv Sr. split.
  - apply names_Permutation; [assumption|]. now apply namesOk_intro.
  - apply arraifyMap_sorted.
Qed.

End OrderIndependence.

(** Code-unit order is one collation, and it tells all strings apart. *)
Lemma compare_Collation : Collation String.compare.
Proof.
  split.
  - intros a b. apply String.compare_antisym.
  - intros a b c Hab Hbc.
    destruct (String.compare a b) eqn:Eab; [| |congruence].
    + apply String.compare_eq_iff in Eab. now subst.
    + destruct (String.compare b c) eqn:Ebc; [| |congruence].
      * apply String.compare_eq_iff in Ebc. subst. rewrite Eab. discriminate.
      * apply String_as_OT.cmp_lt in Eab, Ebc.
        assert (Hac : String_as_OT.lt a c)
          by (eapply String_as_OT.lt_trans; eassumption).
        apply String_as_OT.cmp_lt in Hac. unfold String_as_OT.cmp in Hac.
        rewrite Hac. discriminate.
Qed.

Lemma compare_separates {A : Type} (key : A -> string) (l : list A) :
  separates String.compare key l.
Proof. intros a b _ _. apply String.compare_eq_iff. Qed.

Lemma arraifyMap_order_independent_witness :
  Permutation arrival1 arrival2
  /\ NoDup (map factKey arrival1)
  /\ arraifyMap String.compare (insertAll arrival1)
     = arraifyMap String.compare (insertAll arrival2)
  /\ sortedOutput String.compare
       (arraifyMap String.compare (insertAll arrival1)).
Proof.
  assert (Hperm : Permutation arrival1 arrival2).
  { apply (Permutation_cons_append
             [("api", gplThing "2.0.0" true); ("api", gplThing "1.0.0" false)]
             ("web", gplThing "2.0.0" false)). }
  assert (Hnd : NoDup (map factKey arrival1)).
  { repeat constructor; simpl; intuition discriminate. }
  split; [exact Hperm|]. split; [exact Hnd|].
  exact (arraifyMap_order_independent compare_Collation Hperm Hnd
           (compare_separates _ _) (compare_separates _ _)
           (compare_separates _ _) (compare_separates _ _)).
Defined.

(** A comparator read through a function of its arguments is a collation
    when the comparator is. *)
Lemma Collation_through (cmp : string -> string -> comparison)
  (f : string -> string) :
  Collation cmp -> Collation (fun a b => cmp (f a) (f b)).
Proof.
  intros [Hswap Htrans]. split.
  - intros a b. apply Hswap.
  - intros a b c. apply Htrans.
Qed.

(** C2, as stated for every collation, fails.  [collateIgnoringSoh] is a
    consistent comparator, the two arrivals hold the same two facts, whose
    (name, license, version, repository) combinations differ, and yet the
    two stores serialise differently: the two names compare as equal, so
    the stable sort leaves them in the order of insertion. *)
Lemma tied_names_serialise_in_insertion_order :
  Collation collateIgnoringSoh
  /\ Permutation tiedArrival1 tiedArrival2
  /\ NoDup (map factKey tiedArrival1)
  /\ map Out.name (arraifyMap collateIgnoringSoh (insertAll tiedArrival1))
     = map factName tiedArrival1
  /\ map Out.name (arraifyMap collateIgnoringSoh (insertAll tiedArrival2))
     = map factName tiedArrival2
  /\ arraifyMap collateIgnoringSoh (insertAll tiedArrival1)
     <> arraifyMap collateIgnoringSoh (insertAll tiedArrival2).
Proof.
  split; [exact (Collation_through withoutSoh compare_Collation)|].
  split; [apply perm_swap|].
  split; [repeat constructor; simpl; intuition discriminate|].
  split; [reflexivity|]. split; [reflexivity|].
  intros Heq. apply (f_equal (map Out.name)) in Heq.
  vm_compute in Heq. discriminate Heq.
Qed.

(** ** The export decision *)

Section DifferFacts.

Variable md5Base64 : string -> string.

(** With no comment to compare with, or an empty one, the report is
    exported. *)
Lemma exportStep_first_run (mdProblems : string) :
  exportStep md5Base64 None mdProblems = Publish
  /\ exportStep md5Base64 (Some "") mdProblems = Publish.
Proof. split; reflexivity. Qed.

(** A comment that already holds the report is left as it is. *)
Lemma exportStep_identical (body : string) :
  body <> "" -> exportStep md5Base64 (Some body) body = SkipExport.
Proof.
  intros Hbody. unfold exportStep, hasDiffs, truthy.
  rewrite String.eqb_refl.
  destruct (String.eqb_spec body ""); [contradiction|reflexivity].
Qed.

(** Beyond that the decision is the comparison of the digests. *)
Lemma exportStep_digests (body mdProblems : string) :
  body <> "" ->
  exportStep md5Base64 (Some body) mdProblems
  = if md5Base64 body =? md5Base64 mdProblems then SkipExport else Publish.
Proof.
  intros Hbody. unfold exportStep, hasDiffs, truthy.
  destruct (String.eqb_spec body ""); [contradiction|].
  destruct (md5Base64 body =? md5Base64 mdProblems); reflexivity.
Qed.

End DifferFacts.

(** * More of the pipeline *)

(** ** The relationship map holds input edges only *)

Lemma In_set {V : Type} (k k' : string) (v v' : V) (m : JsMap.t V) :
  In (k', v') (JsMap.set k v m) -> (k' = k /\ v' = v) \/ In (k', v') m.
Proof.
  induction m as [|[k0 v0] rest IH]; simpl.
  - intros [[= <- <-]|[]]. now left.
  - destruct (k0 =? k); simpl.
    + intros [[= <- <-]|H]; [now left|right; now right].
    + intros [H|H]; [right; now left|].
      destruct (IH H) as [H'|H']; [now left|right; now right].
Qed.

Lemma relationshipStep_edgesOnly (edges : list Sbom.Relationship)
  (m : JsMap.t string) (e : Sbom.Relationship) :
  In e edges -> edgesOnly edges m -> edgesOnly edges (relationshipStep m e).
Proof.
  intros He [Hnd Hin]. unfold relationshipStep.
  destruct e as [[src|] [tgt|]]; simpl; try (split; assumption).
  destruct (String.eqb_spec src "") as [->|Hsrc]; simpl; [split; assumption|].
  destruct (String.eqb_spec tgt "") as [->|Htgt]; simpl; [split; assumption|].
  destruct (JsMap.has src m); simpl; [split; assumption|].
  split.
  - now apply JsMapFacts.NoDup_keys_set.
  - intros k v H. apply In_set in H as [[-> ->]|H]; [|now apply Hin].
    repeat split; assumption.
Qed.

Lemma fold_relationshipStep_edgesOnly (edges all : list Sbom.Relationship) :
  incl edges all ->
  forall m, edgesOnly all m -> edgesOnly all (fold_left relationshipStep edges m).
Proof.
  induction edges as [|e edges IH]; intros Hincl m Hm; simpl; [assumption|].
  apply IH.
  - intros x Hx. apply Hincl. now right.
  - apply relationshipStep_edgesOnly; [|assumption]. apply Hincl. now left.
Qed.

Lemma relationshipMap_edgesOnly (relationships : option (list Sbom.Relationship)) :
  edgesOnly (orElse relationships []) (relationshipMap relationships).
Proof.
  unfold relationshipMap.
  apply fold_relationshipStep_edgesOnly.
  - apply incl_refl.
  - split; [constructor|]. intros k v [].
Qed.

Lemma length_relationshipStep (m : JsMap.t string) (e : Sbom.Relationship) :
  List.length (relationshipStep m e) <= S (List.length m).
Proof.
  unfold relationshipStep.
  destruct e as [[src|] [tgt|]]; simpl; try lia.
  destruct (_ && _); [|lia].
  rewrite <- (length_map fst). fold (JsMap.keys (JsMap.set src tgt m)).
  rewrite JsMapFacts.keys_set.
  destruct (JsMap.has src m); unfold JsMap.keys;
    rewrite ?length_app, length_map; simpl; lia.
Qed.

(** X1.  The relationship map has one entry per key; every entry is an edge
    of the input with both ids non-empty; and it never holds more entries
    than the input has edges. *)
Theorem relationshipMap_holds_input_edges
  (relationships : option (list Sbom.Relationship)) :
  NoDup (JsMap.keys (relationshipMap relationships))
  /\ (forall k v, In (k, v) (relationshipMap relationships) ->
        k <> "" /\ v <> "" /\ In (edgeOf k v) (orElse relationships []))
  /\ List.length (relationshipMap relationships)
     <= List.length (orElse relationships []).
Proof.
  destruct (relationshipMap_edgesOnly relationships) as [Hnd Hin].
  split; [exact Hnd|]. split; [exact Hin|].
  unfold relationshipMap.
  assert (H : forall edges m,
             List.length (fold_left relationshipStep edges m)
             <= List.length m + List.length edges).
  { induction edges as [|e edges IH]; intros m; simpl; [lia|].
    specialize (IH (relationshipStep m e)).
    pose proof (length_relationshipStep m e). lia. }
  apply (H (orElse relationships []) JsMap.empty).
Qed.

(** ** The split into root and dependencies *)

Lemma versionInfo_withSpdxId (p : Sbom.Package) :
  Sbom.versionInfo (withSpdxId p) = Sbom.versionInfo p.
Proof. unfold withSpdxId. destruct (truthy (Sbom.SPDXID p)); reflexivity. Qed.

Lemma truthy_withSpdxId (p : Sbom.Package) :
  truthy (Sbom.SPDXID (withSpdxId p)) = true.
Proof.
  unfold withSpdxId. destruct (truthy (Sbom.SPDXID p)) eqn:E; [exact E|].
  reflexivity.
Qed.

Lemma fold_splitStep (packages : list Sbom.Package) :
  forall deps mainSpdxId,
    fold_left splitStep packages (deps, mainSpdxId)
    = (deps ++ map withSpdxId (filter (fun p => negb (isMain p)) packages),
       match rev (filter isMain packages) with
       | root :: _ => orElse (Sbom.SPDXID (withSpdxId root)) ""
       | [] => mainSpdxId
       end).
Proof.
  induction packages as [|p packages IH]; intros deps mainSpdxId; simpl.
  - now rewrite app_nil_r.
  - rewrite versionInfo_withSpdxId.
    change (Sbom.versionInfo p =? "main") with (isMain p).
    destruct (isMain p) eqn:E; cbn [negb].
    + rewrite IH. f_equal. simpl.
      destruct (rev (filter isMain packages)); reflexivity.
    + rewrite IH, <- app_assoc. reflexivity.
Qed.

(** X2.  The dependencies are the nodes whose version is not "main", in
    input order, each with a non-empty element id ("NOTFOUND" when the node
    had none); the root id is that of the last node whose version is "main",
    and the empty string when there is none. *)
Theorem splitPackages_closed_form (packages : list Sbom.Package) :
  splitPackages packages
  = (map withSpdxId (filter (fun p => negb (isMain p)) packages),
     lastRootId packages)
  /\ Forall (fun d => truthy (Sbom.SPDXID d) = true
                      /\ Sbom.versionInfo d <> "main")
       (fst (splitPackages packages)).
Proof.
  unfold splitPackages, lastRootId. rewrite fold_splitStep. simpl.
  split; [reflexivity|].
  apply Forall_forall. intros d Hd.
  apply in_map_iff in Hd as [p [<- Hp]].
  apply filter_In in Hp as [_ Hp].
  split; [apply truthy_withSpdxId|].
  rewrite versionInfo_withSpdxId. unfold isMain in Hp.
  destruct (String.eqb_spec (Sbom.versionInfo p) "main"); [discriminate|assumption].
Qed.

(** ** Direct and transitive, from the edges *)

Lemma get_relationshipMap (relationships : option (list Sbom.Relationship))
  (s : string) :
  JsMap.get s (relationshipMap relationships)
  = firstTarget s (orElse relationships []).
Proof.
  unfold relationshipMap. now rewrite get_fold_relationshipStep.
Qed.

Lemma isTransitiveDep_resolvePackage
  (packageJson : string -> option string -> option Npm.Metadata)
  (relMap : JsMap.t string) (mainSpdxId : string) (dep : Sbom.Package) :
  Resolved.isTransitiveDep
    (Npm.value (resolvePackage packageJson relMap mainSpdxId dep))
  = isTransitiveDepOf relMap mainSpdxId (Sbom.SPDXID dep).
Proof.
  unfold resolvePackage, Npm.value, Npm.bind, Npm.ret.
  destruct (if truthy (Sbom.licenseConcluded dep) then _ else _) as [r sent].
  reflexivity.
Qed.

(** X3.  A dependency is resolved as direct exactly when the first edge of
    the input that starts at its element id and carries both ids points at
    the root id; with no such edge, or one that points elsewhere, it is
    transitive. *)
Theorem direct_iff_first_edge_points_at_root
  (packageJson : string -> option string -> option Npm.Metadata)
  (relationships : option (list Sbom.Relationship))
  (mainSpdxId : string) (dep : Sbom.Package) :
  Resolved.isTransitiveDep
    (Npm.value
       (resolvePackage packageJson (relationshipMap relationships)
          mainSpdxId dep)) = false
  <-> firstTarget (orElse (Sbom.SPDXID dep) "") (orElse relationships [])
      = Some mainSpdxId.
Proof.
  rewrite isTransitiveDep_resolvePackage. unfold isTransitiveDepOf.
  rewrite get_relationshipMap.
  destruct (firstTarget _ _) as [t|]; simpl.
  - destruct (String.eqb_spec t mainSpdxId) as [->|Hne]; simpl.
    + split; reflexivity.
    + split; [discriminate|]. intros [= E]. contradiction.
  - split; discriminate.
Qed.

(** X4.  When no node of the document has version "main", every resolved
    package is transitive: the root id is then the empty string, and the
    relationship map never stores an empty target. *)
Theorem no_root_all_transitive
  (packageJson : string -> option string -> option Npm.Metadata)
  (relationships : option (list Sbom.Relationship))
  (packages : list Sbom.Package) :
  Forall (fun p => Sbom.versionInfo p <> "main") packages ->
  Forall (fun pkg => Resolved.isTransitiveDep pkg = true)
    (resolvedPackages packageJson relationships packages).
Proof.
  intros Hnoroot. unfold resolvedPackages, splitPackages.
  rewrite fold_splitStep. simpl.
  assert (Hfilter : filter isMain packages = []).
  { induction Hnoroot as [|p ps Hp _ IH]; simpl; [reflexivity|].
    unfold isMain at 1.
    destruct (String.eqb_spec (Sbom.versionInfo p) "main"); [contradiction|].
    exact IH. }
  rewrite Hfilter. simpl.
  apply Forall_forall. intros pkg Hpkg.
  apply in_map_iff in Hpkg as [dep [<- _]].
  rewrite isTransitiveDep_resolvePackage. unfold isTransitiveDepOf.
  destruct (JsMap.get _ _) as [t|] eqn:Hget; [|reflexivity].
  apply JsMapFacts.get_In in Hget.
  apply (proj2 (relationshipMap_edgesOnly relationships)) in Hget
    as [_ [Ht _]].
  simpl. destruct (String.eqb_spec t ""); [contradiction|reflexivity].
Qed.

Lemma no_root_all_transitive_witness :
  let packages :=
    [ {| Sbom.SPDXID := Some "SPDXRef-a"; Sbom.name := Some "npm:a";
         Sbom.versionInfo := "1.0.0"; Sbom.licenseConcluded := Some "MIT" |};
      {| Sbom.SPDXID := None; Sbom.name := Some "npm:b";
         Sbom.versionInfo := "2.0.0"; Sbom.licenseConcluded := Some "ISC" |} ] in
  let relationships :=
    Some [ {| Sbom.spdxElementId := Some "SPDXRef-a";
              Sbom.relatedSpdxElement := Some "SPDXRef-root" |} ] in
  Forall (fun pkg => Resolved.isTransitiveDep pkg = true)
    (resolvedPackages (fun _ _ => None) relationships packages).
Proof.
  intros packages relationships.
  apply (no_root_all_transitive (fun _ _ => None) relationships).
  repeat constructor; discriminate.
Defined.

(** ** The dedupe step *)

Lemma setHas_In (n : string) (l : list string) :
  setHas n l = true <-> In n l.
Proof.
  unfold setHas. rewrite existsb_exists. split.
  - intros [x [Hx E]]. apply String.eqb_eq in E. now subst.
  - intros H. exists n. split; [assumption|apply String.eqb_refl].
Qed.

Lemma setHas_false (n : string) (l : list string) :
  setHas n l = false <-> ~ In n l.
Proof.
  rewrite <- setHas_In. destruct (setHas n l); split; congruence.
Qed.

Lemma NoDup_snoc {A : Type} (l : list A) (x : A) :
  NoDup l -> ~ In x l -> NoDup (l ++ [x]).
Proof.
  intros Hnd Hx. apply NoDup_rev in Hnd.
  rewrite <- (rev_involutive (l ++ [x])). apply NoDup_rev.
  rewrite rev_app_distr. simpl. constructor; [|assumption].
  now rewrite <- in_rev.
Qed.

Lemma uniqueStep_inv (st : UniqueState) (d : Sbom.Package) :
  uniqueInv st -> uniqueInv (uniqueStep st d).
Proof.
  intros (Hnames & Hnd & Htruthy). unfold uniqueStep.
  destruct (Sbom.name d) as [n|] eqn:En; [|repeat split; assumption].
  destruct (truthy (Some n)) eqn:Et; simpl; [|repeat split; assumption].
  destruct (setHas n (uniqueDepNames st)) eqn:Es; simpl;
    [repeat split; assumption|].
  apply setHas_false in Es. repeat split; simpl.
  - rewrite map_app, Hnames. simpl. unfold depName at 3. now rewrite En.
  - now apply NoDup_snoc.
  - apply Forall_app. split; [assumption|]. constructor; [|constructor].
    now rewrite En.
Qed.

Lemma fold_uniqueStep_inv (deps : list Sbom.Package) :
  forall st, uniqueInv st -> uniqueInv (fold_left uniqueStep deps st).
Proof.
  induction deps as [|d deps IH]; intros st Hst; simpl; [assumption|].
  apply IH. now apply uniqueStep_inv.
Qed.

Lemma fold_uniqueStep_incl (deps : list Sbom.Package) :
  forall st,
    incl (uniqueDeps (fold_left uniqueStep deps st)) (uniqueDeps st ++ deps).
Proof.
  induction deps as [|d deps IH]; intros st; simpl.
  - rewrite app_nil_r. apply incl_refl.
  - intros x Hx. apply IH in Hx. apply in_app_iff in Hx as [Hx|Hx].
    + unfold uniqueStep in Hx.
      destruct (Sbom.name d) as [n|];
        [|apply in_app_iff; now left].
      destruct (_ && _); simpl in Hx; [|apply in_app_iff; now left].
      apply in_app_iff in Hx as [Hx|[<-|[]]]; apply in_app_iff;
        [now left|right; now left].
    + apply in_app_iff. right. now right.
Qed.

Lemma uniqueDepsOf_inv (deps : list Sbom.Package) :
  NoDup (map depName (uniqueDepsOf deps))
  /\ Forall (fun d => truthy (Sbom.name d) = true) (uniqueDepsOf deps).
Proof.
  unfold uniqueDepsOf.
  destruct (fold_uniqueStep_inv deps
              (st := {| uniqueDepNames := []; uniqueDeps := [] |}))
    as (Hnames & Hnd & Htruthy).
  { repeat split; simpl; constructor. }
  rewrite Hnames in Hnd. split; assumption.
Qed.

(** X5.  The dependencies kept by the dedupe step are nodes of the input
    with pairwise distinct, non-empty names, and every non-empty name of the
    input is the name of one of them. *)
Theorem uniqueDeps_cover_names_once (deps : list Sbom.Package) :
  NoDup (map depName (uniqueDepsOf deps))
  /\ Forall (fun d => truthy (Sbom.name d) = true) (uniqueDepsOf deps)
  /\ incl (uniqueDepsOf deps) deps
  /\ (forall d, In d deps -> truthy (Sbom.name d) = true ->
        In (depName d) (map depName (uniqueDepsOf deps))).
Proof.
  destruct (uniqueDepsOf_inv deps) as [Hnd Htruthy].
  split; [exact Hnd|]. split; [exact Htruthy|]. split.
  - unfold uniqueDepsOf. intros x Hx.
    apply fold_uniqueStep_incl in Hx. exact Hx.
  - intros d Hd Hname.
    destruct (Sbom.name d) as [n|] eqn:En; [|discriminate].
    assert (Hn : n <> "").
    { simpl in Hname. destruct (String.eqb_spec n ""); [discriminate|assumption]. }
    pose proof (filter_uniqueDepsOf deps Hn) as Hfilter.
    unfold firstNamed in Hfilter.
    destruct (find (hasName n) deps) as [first|] eqn:Hfind.
    + assert (Hin : In first (filter (hasName n) (uniqueDepsOf deps)))
        by (rewrite Hfilter; now left).
      apply filter_In in Hin as [Hin Hfirst].
      apply in_map_iff. exists first. split; [|assumption].
      unfold depName. rewrite En. unfold hasName in Hfirst.
      destruct (Sbom.name first) as [m|]; [|discriminate].
      simpl in *. apply String.eqb_eq in Hfirst. now subst.
    + pose proof (find_none _ _ Hfind d Hd) as Hno.
      unfold hasName in Hno. rewrite En in Hno. simpl in Hno.
      rewrite String.eqb_refl in Hno. discriminate.
Qed.

Lemma fold_uniqueStep_fresh (l : list Sbom.Package) :
  forall st,
    NoDup (map depName l) ->
    Forall (fun d => truthy (Sbom.name d) = true) l ->
    (forall d, In d l -> ~ In (depName d) (uniqueDepNames st)) ->
    uniqueDeps (fold_left uniqueStep l st) = uniqueDeps st ++ l.
Proof.
  induction l as [|d l IH]; intros st Hnd Htruthy Hfresh; simpl.
  - now rewrite app_nil_r.
  - inversion Hnd as [|? ? Hnotin Hnd']; subst.
    inversion Htruthy as [|? ? Hd Htruthy']; subst.
    assert (Hstep : uniqueStep st d
                    = {| uniqueDepNames := uniqueDepNames st ++ [depName d];
                         uniqueDeps := uniqueDeps st ++ [d] |}).
    { unfold uniqueStep, depName.
      destruct (Sbom.name d) as [n|] eqn:En; [|discriminate].
      rewrite Hd. simpl.
      assert (Hs : setHas n (uniqueDepNames st) = false).
      { apply setHas_false. specialize (Hfresh d (or_introl eq_refl)).
        unfold depName in Hfresh. now rewrite En in Hfresh. }
      now rewrite Hs. }
    rewrite Hstep, IH; try assumption.
    + simpl. now rewrite <- app_assoc.
    + intros x Hx. simpl. rewrite in_app_iff. intros [H|[H|[]]].
      * apply (Hfresh x (or_intror Hx) H).
      * apply Hnotin. rewrite H. now apply in_map.
Qed.

(** X6.  The dedupe step leaves a list of nodes with pairwise distinct,
    non-empty names as it is; run on its own output it therefore changes
    nothing. *)
Theorem uniqueDepsOf_idempotent (deps : list Sbom.Package) :
  uniqueDepsOf (uniqueDepsOf deps) = uniqueDepsOf deps.
Proof.
  destruct (uniqueDepsOf_inv deps) as [Hnd Htruthy].
  unfold uniqueDepsOf at 1.
  rewrite fold_uniqueStep_fresh; try assumption; [reflexivity|].
  intros d _ [].
Qed.

(** ** What a scan asks of the registry *)



(** ** The resolved packages *)

Lemma resolvePackage_modes
  (packageJson : string -> option string -> option Npm.Metadata)
  (relMap : JsMap.t string) (mainSpdxId : string) (dep : Sbom.Package) :
  let pkg := Npm.value (resolvePackage packageJson relMap mainSpdxId dep) in
  knownMode (Resolved.resolveMode pkg)
  /\ (Resolved.license pkg = None ->
      Resolved.resolveMode pkg = "npmCurrVer"
      \/ Resolved.resolveMode pkg = "npmLatestVer")
  /\ (Resolved.resolveMode pkg = "failed" ->
      Resolved.license pkg = Some "non-NPM")
  /\ (Resolved.resolveMode pkg = "explicit" ->
      Resolved.license pkg = Sbom.licenseConcluded dep
      /\ isExplicit dep = true).
Proof.
  unfold resolvePackage, resolveLicenseFromNPM, fetchMetadata, isExplicit.
  unfold Npm.value, Npm.bind, Npm.ret, knownMode.
  destruct (truthy (Sbom.licenseConcluded dep)) eqn:E; simpl.
  - repeat split; auto; try discriminate.
    intros H. rewrite H in E. discriminate.
  - destruct (packageJson _ (Some _)); simpl.
    + repeat split; auto; discriminate.
    + destruct (packageJson _ None); simpl;
        repeat split; auto; discriminate.
Qed.

(** X8.  The packages resolved for a repository have pairwise distinct,
    non-empty names; each carries one of the four resolve modes; a license
    is undefined only when the registry answered, it is "non-NPM" whenever
    the mode is "failed", and the mode is "explicit" only for a node that
    has an explicit license, which is then the license returned. *)
Theorem resolvedPackages_shape
  (packageJson : string -> option string -> option Npm.Metadata)
  (relationships : option (list Sbom.Relationship))
  (packages : list Sbom.Package) :
  let resolved := resolvedPackages packageJson relationships packages in
  NoDup (map Resolved.name resolved)
  /\ Forall (fun pkg =>
               Resolved.name pkg <> ""
               /\ knownMode (Resolved.resolveMode pkg)
               /\ (Resolved.license pkg = None ->
                   Resolved.resolveMode pkg = "npmCurrVer"
                   \/ Resolved.resolveMode pkg = "npmLatestVer")
               /\ (Resolved.resolveMode pkg = "failed" ->
                   Resolved.license pkg = Some "non-NPM")
               /\ (Resolved.resolveMode pkg = "explicit" ->
                   truthy (Resolved.license pkg) = true))
       resolved.
Proof.
  intros resolved. subst resolved. unfold resolvedPackages.
  destruct (splitPackages packages) as [deps mainSpdxId].
  destruct (uniqueDepsOf_inv deps) as [Hnd Htruthy].
  split.
  - rewrite map_map.
    erewrite map_ext; [exact Hnd|].
    intros d. apply name_resolvePackage.
  - apply Forall_forall. intros pkg Hpkg.
    apply in_map_iff in Hpkg as [d [<- Hd]].
    rewrite Forall_forall in Htruthy. specialize (Htruthy d Hd).
    destruct (resolvePackage_modes packageJson
                (relationshipMap relationships) mainSpdxId d)
      as (Hmode & Hnone & Hfailed & Hexplicit).
    split; [|repeat split; try assumption].
    + rewrite name_resolvePackage. unfold depName.
      destruct (Sbom.name d) as [n|]; [|discriminate]. simpl in *.
      destruct (String.eqb_spec n ""); [discriminate|assumption].
    + intros H. destruct (Hexplicit H) as [-> Hd']. exact Hd'.
Qed.

(** ** Insertion and lookup *)

(** X9.  After a package is inserted for a repository, the list under its
    name, license and version is the list that was there with the new entry
    appended; the list under any other combination of keys is as before. *)
Theorem insert_then_lookup (repo : string) (pkg : PackageData.t)
  (m : PackageDataMap) (name license version : string) :
  entriesAt name license version (insertPkgIntoMap repo pkg m)
  = if (PackageData.name pkg =? name)
       && (PackageData.license pkg =? license)
       && (PackageData.version pkg =? version)
    then entriesAt name license version m ++ [mappedOf repo pkg]
    else entriesAt name license version m.
Proof.
  rewrite insertPkgIntoMap_upsert. unfold entriesAt, upsert.
  rewrite JsMapFacts.get_set.
  destruct (String.eqb_spec (PackageData.name pkg) name) as [<-|Hn];
    [|reflexivity].
  cbn [orElse andb]. rewrite JsMapFacts.get_set.
  destruct (String.eqb_spec (PackageData.license pkg) license) as [<-|Hl];
    [|reflexivity].
  cbn [orElse andb]. rewrite JsMapFacts.get_set.
  destruct (String.eqb_spec (PackageData.version pkg) version) as [<-|Hv];
    reflexivity.
Qed.

(** ** Nothing is lost between insertion and serialisation *)

Lemma gatherKeyed_upsert {V B : Type} (f : string -> V -> list B)
  (k : string) (d : V) (g : V -> V) (x : B) (m : JsMap.t V) :
  f k d = [] ->
  (forall v, Permutation (f k (g v)) (x :: f k v)) ->
  Permutation (gatherKeyed f (upsert k d g m)) (x :: gatherKeyed f m).
Proof.
  intros Hd Hg. unfold upsert, gatherKeyed.
  induction m as [|[k0 v0] rest IH]; simpl.
  - rewrite app_nil_r, Hg, Hd. reflexivity.
  - destruct (String.eqb_spec k0 k) as [->|Hne]; simpl.
    + rewrite Hg. reflexivity.
    + rewrite IH. symmetry. apply Permutation_middle.
Qed.

Lemma mapFiled_insertPkgIntoMap (repo : string) (pkg : PackageData.t)
  (m : PackageDataMap) :
  Permutation (mapFiled (insertPkgIntoMap repo pkg m))
    (factFiled (repo, pkg) :: mapFiled m).
Proof.
  rewrite insertPkgIntoMap_upsert. unfold mapFiled, factFiled.
  apply gatherKeyed_upsert; [reflexivity|]. intros byLicense.
  apply gatherKeyed_upsert; [reflexivity|]. intros byVersion.
  apply gatherKeyed_upsert; [reflexivity|]. intros repos.
  rewrite map_app. simpl. symmetry. apply Permutation_cons_append.
Qed.

Lemma mapFiled_fold_insert (ts : list Fact) :
  forall m,
    Permutation
      (mapFiled
         (fold_left (fun m t => insertPkgIntoMap (fst t) (snd t) m) ts m))
      (mapFiled m ++ map factFiled ts).
Proof.
  induction ts as [|[repo pkg] ts IH]; intros m; simpl.
  - now rewrite app_nil_r.
  - rewrite IH, mapFiled_insertPkgIntoMap. simpl.
    apply Permutation_middle.
Qed.

Lemma flat_map_Permutation_ext {A B : Type} (f g : A -> list B) (l : list A) :
  (forall a, Permutation (f a) (g a)) ->
  Permutation (flat_map f l) (flat_map g l).
Proof.
  intros H. induction l as [|a l IH]; simpl; [constructor|].
  now apply Permutation_app.
Qed.

Lemma sortBy_Permutation_any {A : Type} (cmp : A -> A -> comparison) :
  forall l : list A, Permutation (sortBy cmp l) l.
Proof.
  assert (Hins : forall x rest, Permutation (insertSorted cmp x rest) (x :: rest)).
  { intros x. induction rest as [|c rest IHr]; simpl; [reflexivity|].
    destruct (cmp x c); try reflexivity.
    rewrite IHr. apply perm_swap. }
  induction l as [|x l IH]; simpl; [constructor|].
  rewrite Hins. now constructor.
Qed.

Lemma flat_map_sortBy_map {A B C : Type} (cmp : B -> B -> comparison)
  (h : A -> B) (f : B -> list C) (l : list A) :
  Permutation (flat_map f (sortBy cmp (map h l)))
    (flat_map (fun a => f (h a)) l).
Proof.
  rewrite (Permutation_flat_map f (sortBy_Permutation_any cmp (map h l))).
  rewrite flat_map_concat_map, map_map, <- flat_map_concat_map.
  reflexivity.
Qed.

Lemma outFiled_arraifyMap (localeCompare : string -> string -> comparison)
  (m : PackageDataMap) :
  Permutation (outFiled (arraifyMap localeCompare m)) (mapFiled m).
Proof.
  unfold outFiled, arraifyMap, mapFiled, gatherKeyed.
  rewrite flat_map_sortBy_map.
  apply flat_map_Permutation_ext. intros [name byLicense]. simpl.
  unfold arraifyLicenses. rewrite flat_map_sortBy_map.
  apply flat_map_Permutation_ext. intros [license byVersion]. simpl.
  unfold arraifyVersions. rewrite flat_map_sortBy_map.
  apply flat_map_Permutation_ext. intros [version repos]. simpl.
  apply Permutation_map, sortBy_Permutation_any.
Qed.

(** X10.  Serialisation keeps every entry of a map, each under the name,
    license and version it was filed under, and adds none; the array has one
    element per package name of the map.  This needs nothing of
    [localeCompare]. *)
Theorem arraifyMap_keeps_every_entry
  (localeCompare : string -> string -> comparison) (m : PackageDataMap) :
  Permutation (outFiled (arraifyMap localeCompare m)) (mapFiled m)
  /\ Permutation (map Out.name (arraifyMap localeCompare m)) (JsMap.keys m)
  /\ List.length (arraifyMap localeCompare m) = List.length m.
Proof.
  split; [apply outFiled_arraifyMap|].
  assert (Hnames : Permutation (map Out.name (arraifyMap localeCompare m))
                     (JsMap.keys m)).
  { unfold arraifyMap, JsMap.keys.
    rewrite (Permutation_map Out.name (sortBy_Permutation_any _ _)).
    rewrite map_map. reflexivity. }
  split; [exact Hnames|].
  rewrite <- (length_map Out.name), (Permutation_length Hnames).
  unfold JsMap.keys. apply length_map.
Qed.

(** X11.  Whatever the order of insertion and whatever [localeCompare]
    does, the arrays serialised from the inserted facts hold each fact
    exactly once, under its own name, license and version. *)
Theorem inserted_facts_are_serialised_once
  (localeCompare : string -> string -> comparison) (ts : list Fact) :
  Permutation (outFiled (arraifyMap localeCompare (insertAll ts)))
    (map factFiled ts).
Proof.
  rewrite outFiled_arraifyMap. unfold insertAll.
  rewrite mapFiled_fold_insert. reflexivity.
Qed.

(** ** What every run keeps true of the two maps *)

Lemma set_not_nil {V : Type} (k : string) (v : V) (m : JsMap.t V) :
  JsMap.set k v m <> [].
Proof.
  destruct m as [|[k0 v0] rest]; simpl; [discriminate|].
  destruct (k0 =? k); discriminate.
Qed.

Lemma Forall_set {V : Type} (P : V -> Prop) (k : string) (v : V)
  (m : JsMap.t V) :
  Forall (fun kv => P (snd kv)) m -> P v ->
  Forall (fun kv => P (snd kv)) (JsMap.set k v m).
Proof.
  intros Hm Hv. apply Forall_forall. intros [k' v'] Hin.
  apply In_set in Hin as [[-> ->]|Hin]; [exact Hv|].
  rewrite Forall_forall in Hm. exact (Hm _ Hin).
Qed.

Lemma level_upsert {V : Type} (P : V -> Prop) (k : string) (d : V)
  (f : V -> V) (m : JsMap.t V) :
  level P m ->
  (forall v, v = d \/ P v -> P (f v)) ->
  level P (upsert k d f m).
Proof.
  intros [Hnd Hall] Hf. unfold upsert. split.
  - now apply JsMapFacts.NoDup_keys_set.
  - apply Forall_set; [assumption|]. apply Hf.
    destruct (JsMap.get k m) as [v|] eqn:E; simpl; [right|now left].
    apply JsMapFacts.get_In in E. rewrite Forall_forall in Hall.
    exact (Hall _ E).
Qed.

Lemma level_empty {V : Type} (P : V -> Prop) : level P JsMap.empty.
Proof. split; constructor. Qed.

Lemma wellFormed_insertPkgIntoMap (repo : string) (pkg : PackageData.t)
  (m : PackageDataMap) :
  wellFormed m -> wellFormed (insertPkgIntoMap repo pkg m).
Proof.
  intros Hm. rewrite insertPkgIntoMap_upsert.
  apply level_upsert; [exact Hm|]. intros byLicense HbyLicense.
  split; [apply set_not_nil|].
  apply level_upsert.
  { destruct HbyLicense as [->|[_ H]]; [apply level_empty|exact H]. }
  intros byVersion HbyVersion.
  split; [apply set_not_nil|].
  apply level_upsert.
  { destruct HbyVersion as [->|[_ H]]; [apply level_empty|exact H]. }
  intros repos _. destruct repos; discriminate.
Qed.

Lemma wellFormed_storeRepos (m : PackageDataMap) :
  wellFormed m -> (storeRepos m = [] <-> m = []).
Proof.
  intros [_ Hall]. split; [|intros ->; reflexivity].
  destruct m as [|[name byLicense] rest]; [reflexivity|].
  inversion Hall as [|? ? [HbyLicense [_ Hl]] _]; subst. simpl in *.
  destruct byLicense as [|[license byVersion] restL]; [contradiction|].
  inversion Hl as [|? ? [HbyVersion [_ Hv]] _]; subst. simpl in *.
  destruct byVersion as [|[version repos] restV]; [contradiction|].
  inversion Hv as [|? ? Hrepos _]; subst. simpl in *.
  destruct repos; [contradiction|].
  unfold storeRepos, gather. simpl. discriminate.
Qed.

Lemma In_keys_upsert {V : Type} (k : string) (d : V) (f : V -> V)
  (m : JsMap.t V) (x : string) :
  In x (JsMap.keys (upsert k d f m)) -> x = k \/ In x (JsMap.keys m).
Proof.
  unfold upsert. rewrite JsMapFacts.keys_set.
  destruct (JsMap.has k m); [now right|].
  rewrite in_app_iff. intros [H|[<-|[]]]; [now right|now left].
Qed.

Lemma In_gather_upsert {V B : Type} (g : V -> list B) (k : string) (d : V)
  (f : V -> V) (m : JsMap.t V) (x : B) :
  In x (gather g (upsert k d f m)) ->
  In x (g (f (orElse (JsMap.get k m) d))) \/ In x (gather g m).
Proof.
  unfold upsert, gather.
  induction m as [|[k0 v0] rest IH]; simpl.
  - rewrite app_nil_r. now left.
  - destruct (String.eqb_spec k0 k) as [->|Hne]; simpl; rewrite !in_app_iff.
    + intros [H|H]; [now left|right; now right].
    + intros [H|H]; [right; now left|].
      destruct (IH H) as [H'|H']; [now left|right; now right].
Qed.

Lemma In_gather_get {V B : Type} (g : V -> list B) (k : string) (v : V)
  (m : JsMap.t V) (x : B) :
  JsMap.get k m = Some v -> In x (g v) -> In x (gather g m).
Proof.
  intros Hget Hx. apply JsMapFacts.get_In in Hget.
  unfold gather. apply in_flat_map. exists (k, v). split; assumption.
Qed.

Lemma keys_insertPkgIntoMap (repo : string) (pkg : PackageData.t)
  (m : PackageDataMap) (x : string) :
  In x (JsMap.keys (insertPkgIntoMap repo pkg m)) ->
  x = PackageData.name pkg \/ In x (JsMap.keys m).
Proof. rewrite insertPkgIntoMap_upsert. apply In_keys_upsert. Qed.

Lemma licenseKeys_insertPkgIntoMap (repo : string) (pkg : PackageData.t)
  (m : PackageDataMap) (x : string) :
  In x (licenseKeys (insertPkgIntoMap repo pkg m)) ->
  x = PackageData.license pkg \/ In x (licenseKeys m).
Proof.
  rewrite insertPkgIntoMap_upsert. unfold licenseKeys. intros H.
  apply In_gather_upsert in H as [H|H]; [|now right].
  apply In_keys_upsert in H as [H|H]; [now left|right].
  destruct (JsMap.get (PackageData.name pkg) m) as [byLicense|] eqn:E;
    simpl in H; [|destruct H].
  eapply In_gather_get; eassumption.
Qed.

Section RunInvariants.

Variable licenseBlacklist : list string.
Variable ignorePackagesRegex : list string.
Variable regExpTest : string -> string -> bool.

Local Abbreviation ignored := (ignored ignorePackagesRegex regExpTest).
Local Abbreviation updateMaps :=
  (updateMaps licenseBlacklist ignorePackagesRegex regExpTest).
Local Abbreviation classifyPkg := (classifyPkg licenseBlacklist).
Local Abbreviation perform :=
  (perform licenseBlacklist ignorePackagesRegex regExpTest).
Local Abbreviation run := (run licenseBlacklist ignorePackagesRegex regExpTest).
Local Abbreviation toFile :=
  (toFile licenseBlacklist ignorePackagesRegex regExpTest).
Local Abbreviation isFiled := (isFiled licenseBlacklist).

(** Properties [B] of the blacklist map and [N] of the missing-license map
    that every insertion the code can make preserves hold after any run. *)
Variables B N : PackageDataMap -> Prop.

Hypothesis B_insert :
  forall repo pkg l m,
    Resolved.license pkg = Some l -> l <> "Unknown" ->
    In l licenseBlacklist -> ignored (Resolved.name pkg) = false ->
    B m -> B (insertPkgIntoMap repo (asPackageData pkg l) m).

Hypothesis N_insert :
  forall repo pkg m,
    Resolved.license pkg = Some "Unknown" ->
    ignored (Resolved.name pkg) = false ->
    N m -> N (insertPkgIntoMap repo (asPackageData pkg "Unknown") m).

Lemma classifyPkg_maps (repo : string) (acc : State * bool)
  (pkg : Resolved.t) :
  ignored (Resolved.name pkg) = false ->
  B (blacklistMap (fst acc)) /\ N (noLicenseMap (fst acc)) ->
  B (blacklistMap (fst (classifyPkg repo acc pkg)))
  /\ N (noLicenseMap (fst (classifyPkg repo acc pkg))).
Proof.
  destruct acc as [st affected]. intros Hkeep [HB HN]. unfold classifyPkg.
  destruct (Resolved.license pkg) as [l|] eqn:El; [|split; assumption].
  destruct (String.eqb_spec l "Unknown") as [->|Hl]; simpl.
  - split; [assumption|]. now apply N_insert.
  - destruct (existsb (String.eqb l) licenseBlacklist) eqn:Eb; simpl;
      [|split; assumption].
    split; [|assumption]. apply B_insert; try assumption.
    apply existsb_exists in Eb as [x [Hx E]].
    apply String.eqb_eq in E. now subst.
Qed.

Lemma fold_classifyPkg_maps (repo : string) (pkgs : list Resolved.t) :
  forall acc,
    Forall (fun pkg => ignored (Resolved.name pkg) = false) pkgs ->
    B (blacklistMap (fst acc)) /\ N (noLicenseMap (fst acc)) ->
    B (blacklistMap (fst (fold_left (classifyPkg repo) pkgs acc)))
    /\ N (noLicenseMap (fst (fold_left (classifyPkg repo) pkgs acc))).
Proof.
  induction pkgs as [|pkg pkgs IH]; intros acc Hkept Hacc; simpl;
    [assumption|].
  inversion Hkept; subst. apply IH; [assumption|].
  now apply classifyPkg_maps.
Qed.

Lemma updateMaps_maps (res : option RepoResult.t) (st : State) :
  B (blacklistMap st) /\ N (noLicenseMap st) ->
  B (blacklistMap (updateMaps res st))
  /\ N (noLicenseMap (updateMaps res st)).
Proof.
  intros Hst. destruct res as [r|]; [|exact Hst]. unfold updateMaps.
  match goal with
  | |- context [fold_left ?f ?l ?a] =>
      pose proof (@fold_classifyPkg_maps (RepoResult.repo r) l a) as H;
      destruct (fold_left f l a) as [st' affected]
  end.
  simpl in H. assert (H' : B (blacklistMap st') /\ N (noLicenseMap st')).
  { apply H; [|exact Hst]. apply Forall_forall. intros pkg Hpkg.
    apply filter_In in Hpkg as [_ Hpkg].
    now destruct (ignored (Resolved.name pkg)). }
  destruct affected; exact H'.
Qed.

Lemma run_maps (schedule : list Action) :
  forall st,
    B (blacklistMap st) /\ N (noLicenseMap st) ->
    B (blacklistMap (run schedule st)) /\ N (noLicenseMap (run schedule st)).
Proof.
  unfold run. induction schedule as [|a schedule IH]; intros st Hst;
    [exact Hst|].
  change (fold_left perform (a :: schedule) st)
    with (fold_left perform schedule (perform st a)).
  apply IH. destruct a as [| |res]; [exact Hst|exact Hst|].
  change (perform st (UpdateMaps res)) with (updateMaps (Some res) st).
  now apply updateMaps_maps.
Qed.

End RunInvariants.

Lemma run_wellFormed
  (licenseBlacklist ignorePackagesRegex : list string)
  (regExpTest : string -> string -> bool) (schedule : list Action) :
  let st := run licenseBlacklist ignorePackagesRegex regExpTest schedule
              initialState in
  wellFormed (blacklistMap st) /\ wellFormed (noLicenseMap st).
Proof.
  apply (@run_maps licenseBlacklist ignorePackagesRegex regExpTest
           wellFormed wellFormed).
  - intros. now apply wellFormed_insertPkgIntoMap.
  - intros. now apply wellFormed_insertPkgIntoMap.
  - split; apply level_empty.
Qed.

Lemma filedRepos_nil (st : State) :
  wellFormed (blacklistMap st) -> wellFormed (noLicenseMap st) ->
  (filedRepos st = [] <-> blacklistMap st = [] /\ noLicenseMap st = []).
Proof.
  intros Hb Hn. unfold filedRepos. split.
  - intros H. apply app_eq_nil in H as [H1 H2].
    split; [now apply (wellFormed_storeRepos Hb)|
            now apply (wellFormed_storeRepos Hn)].
  - intros [-> ->]. reflexivity.
Qed.

(** X12.  After any sequence of queue steps from the initial state, no key
    of either map is repeated at any level and none is left without
    entries; so the maps are empty exactly when nothing was filed. *)
Theorem maps_stay_well_formed
  (licenseBlacklist ignorePackagesRegex : list string)
  (regExpTest : string -> string -> bool) (schedule : list Action) :
  let st := run licenseBlacklist ignorePackagesRegex regExpTest schedule
              initialState in
  wellFormed (blacklistMap st) /\ wellFormed (noLicenseMap st)
  /\ (filedRepos st = [] <-> blacklistMap st = [] /\ noLicenseMap st = []).
Proof.
  intros st.
  destruct (run_wellFormed licenseBlacklist ignorePackagesRegex regExpTest
              schedule) as [Hb Hn].
  split; [exact Hb|]. split; [exact Hn|]. now apply filedRepos_nil.
Qed.

(** X13.  After any sequence of queue steps from the initial state, every
    license under which the missing-license map files a package is
    "Unknown", every license of the blacklist map is on the blacklist and is
    not "Unknown", and no package name of either map matches an ignore
    pattern. *)
Theorem maps_hold_what_they_are_for
  (licenseBlacklist ignorePackagesRegex : list string)
  (regExpTest : string -> string -> bool) (schedule : list Action) :
  let st := run licenseBlacklist ignorePackagesRegex regExpTest schedule
              initialState in
  Forall (fun l => l = "Unknown") (licenseKeys (noLicenseMap st))
  /\ Forall (fun l => In l licenseBlacklist /\ l <> "Unknown")
       (licenseKeys (blacklistMap st))
  /\ Forall (fun n => ignored ignorePackagesRegex regExpTest n = false)
       (JsMap.keys (blacklistMap st) ++ JsMap.keys (noLicenseMap st)).
Proof.
  intros st.
  set (kept := fun m : PackageDataMap =>
                 Forall (fun n => ignored ignorePackagesRegex regExpTest n = false)
                   (JsMap.keys m)).
  assert (H : (kept (blacklistMap st)
               /\ Forall (fun l => In l licenseBlacklist /\ l <> "Unknown")
                    (licenseKeys (blacklistMap st)))
              /\ (kept (noLicenseMap st)
                  /\ Forall (fun l => l = "Unknown")
                       (licenseKeys (noLicenseMap st)))).
  { apply (@run_maps licenseBlacklist ignorePackagesRegex regExpTest
             (fun m => kept m
                       /\ Forall (fun l => In l licenseBlacklist /\ l <> "Unknown")
                            (licenseKeys m))
             (fun m => kept m
                       /\ Forall (fun l => l = "Unknown") (licenseKeys m))).
    - intros repo pkg l m Hl Hne Hin Hkeep [Hk Hlic]. unfold kept in *.
      rewrite Forall_forall in Hk, Hlic.
      split; apply Forall_forall; intros x Hx.
      + apply keys_insertPkgIntoMap in Hx as [->|Hx]; [exact Hkeep|auto].
      + apply licenseKeys_insertPkgIntoMap in Hx as [->|Hx]; [|auto].
        simpl. split; assumption.
    - intros repo pkg m Hl Hkeep [Hk Hlic]. unfold kept in *.
      rewrite Forall_forall in Hk, Hlic.
      split; apply Forall_forall; intros x Hx.
      + apply keys_insertPkgIntoMap in Hx as [->|Hx]; [exact Hkeep|auto].
      + apply licenseKeys_insertPkgIntoMap in Hx as [->|Hx]; [reflexivity|auto].
    - repeat split; constructor. }
  destruct H as [[Hkb Hb] [Hkn Hn]].
  split; [exact Hn|]. split; [exact Hb|].
  apply Forall_app. split; assumption.
Qed.

(** ** Filing, counted *)

Section Accounting.

Variable licenseBlacklist : list string.
Variable ignorePackagesRegex : list string.
Variable regExpTest : string -> string -> bool.

Local Abbreviation updateMaps :=
  (updateMaps licenseBlacklist ignorePackagesRegex regExpTest).
Local Abbreviation classifyPkg := (classifyPkg licenseBlacklist).
Local Abbreviation perform :=
  (perform licenseBlacklist ignorePackagesRegex regExpTest).
Local Abbreviation run := (run licenseBlacklist ignorePackagesRegex regExpTest).
Local Abbreviation toFile :=
  (toFile licenseBlacklist ignorePackagesRegex regExpTest).
Local Abbreviation isFiled := (isFiled licenseBlacklist).

Lemma classifyPkg_counted (repo : string) (st : State) (affected : bool)
  (pkg : Resolved.t) :
  let acc := classifyPkg repo (st, affected) pkg in
  snd acc = affected || isFiled pkg
  /\ nAffected (fst acc) = nAffected st
  /\ Permutation (filedRepos (fst acc))
       ((if isFiled pkg then [repo] else []) ++ filedRepos st).
Proof.
  unfold classifyPkg, isFiled, filedRepos.
  destruct (Resolved.license pkg) as [l|]; simpl.
  - destruct (l =? "Unknown"); simpl.
    + rewrite orb_true_r. split; [reflexivity|]. split; [reflexivity|].
      rewrite storeRepos_insertPkgIntoMap. symmetry. apply Permutation_middle.
    + destruct (existsb (String.eqb l) licenseBlacklist); simpl.
      * rewrite orb_true_r. split; [reflexivity|]. split; [reflexivity|].
        now rewrite storeRepos_insertPkgIntoMap.
      * rewrite orb_false_r. split; [reflexivity|]. split; reflexivity.
  - rewrite orb_false_r. split; [reflexivity|]. split; reflexivity.
Qed.

Lemma fold_classifyPkg_counted (repo : string) (pkgs : list Resolved.t) :
  forall st affected,
    let acc := fold_left (classifyPkg repo) pkgs (st, affected) in
    snd acc = affected || existsb isFiled pkgs
    /\ nAffected (fst acc) = nAffected st
    /\ Permutation (filedRepos (fst acc))
         (repeat repo (List.length (filter isFiled pkgs)) ++ filedRepos st).
Proof.
  induction pkgs as [|pkg pkgs IH]; intros st affected; cbv zeta;
    cbn [fold_left existsb filter].
  - simpl. rewrite orb_false_r. split; [reflexivity|]. split; reflexivity.
  - destruct (classifyPkg_counted repo st affected pkg) as (Ha & Hn & Hp).
    destruct (classifyPkg repo (st, affected) pkg) as [st1 affected1].
    cbn [fst snd] in Ha, Hn, Hp. subst affected1.
    destruct (IH st1 (affected || isFiled pkg)) as (Ha' & Hn' & Hp').
    split; [now rewrite Ha', orb_assoc|]. split; [congruence|].
    rewrite Hp', Hp. destruct (isFiled pkg); simpl.
    + symmetry. apply Permutation_middle.
    + reflexivity.
Qed.

(** X14.  Filing the result of a repository adds one entry, carrying the
    repository's name, for each of its packages that no ignore pattern
    matches and whose license is "Unknown" or on the blacklist, and no other
    entry; the repository is counted as affected once if there is such a
    package and not at all otherwise; the scanned and failed counters are
    left alone. *)
Theorem updateMaps_accounting (res : RepoResult.t) (st : State) :
  let st' := updateMaps (Some res) st in
  let filed := toFile (RepoResult.packages res) in
  Permutation (filedRepos st')
    (repeat (RepoResult.repo res) (List.length filed) ++ filedRepos st)
  /\ nAffected st'
     = nAffected st + (match filed with [] => 0 | _ :: _ => 1 end)
  /\ nScanned st' = nScanned st /\ nFailed st' = nFailed st.
Proof.
  intros st' filed. subst st' filed. unfold updateMaps, toFile.
  set (kept := filter _ (RepoResult.packages res)).
  destruct (fold_classifyPkg_counted (RepoResult.repo res) kept st false)
    as (Ha & Hn & Hp).
  destruct (fold_classifyPkg_facts licenseBlacklist (RepoResult.repo res)
              kept (st, false)) as (Hf & Hs & _).
  destruct (fold_left _ kept (st, false)) as [st1 affected].
  simpl in *. subst affected.
  assert (Hex : existsb isFiled kept
                = match filter isFiled kept with [] => false | _ => true end).
  { clear. induction kept as [|p kept IH]; simpl; [reflexivity|].
    destruct (isFiled p); simpl; [reflexivity|exact IH]. }
  rewrite Hex.
  destruct (filter isFiled kept) as [|p filed]; simpl in *.
  - repeat split; try assumption. lia.
  - repeat split; try assumption. simpl. lia.
Qed.

Lemma updateMaps_affected_le (res : RepoResult.t) (st : State) :
  nAffected (updateMaps (Some res) st) <= S (nAffected st).
Proof.
  unfold updateMaps.
  set (kept := filter _ (RepoResult.packages res)).
  destruct (fold_classifyPkg_counted (RepoResult.repo res) kept st false)
    as (_ & Hn & _).
  destruct (fold_left _ kept (st, false)) as [st1 affected].
  simpl in *. destruct affected; simpl; lia.
Qed.

Lemma run_affected_le (schedule : list Action) :
  forall st,
    nAffected (run schedule st)
    <= nAffected st + List.length (filter isUpdateMaps schedule).
Proof.
  unfold run. induction schedule as [|a schedule IH]; intros st;
    [simpl; lia|].
  change (fold_left perform (a :: schedule) st)
    with (fold_left perform schedule (perform st a)).
  specialize (IH (perform st a)).
  destruct a as [| |res].
  - simpl in *. lia.
  - simpl in *. lia.
  - change (perform st (UpdateMaps res)) with (updateMaps (Some res) st) in *.
    pose proof (updateMaps_affected_le res st).
    cbn [filter isUpdateMaps List.length]. lia.
Qed.

End Accounting.

(** ** The repositories of the organisation *)

Lemma fold_archiveStep (orgRepos : list Repo.t) :
  forall arrs,
    fold_left archiveStep orgRepos arrs
    = {| archived := archived arrs ++ filter Repo.archived orgRepos;
         valid := valid arrs
                  ++ filter (fun repo => negb (Repo.archived repo)) orgRepos |}.
Proof.
  induction orgRepos as [|repo orgRepos IH]; intros [arch val]; simpl.
  - now rewrite !app_nil_r.
  - rewrite IH. unfold archiveStep.
    destruct (Repo.archived repo); simpl; now rewrite <- app_assoc.
Qed.

(** X15.  Step [4] puts every repository in exactly one of two arrays: the
    archived ones, in listing order, and the others, in listing order; the
    two lengths add up to the number of repositories. *)
Theorem splitArchived_partitions (orgRepos : list Repo.t) :
  archived (splitArchived orgRepos) = filter Repo.archived orgRepos
  /\ valid (splitArchived orgRepos)
     = filter (fun repo => negb (Repo.archived repo)) orgRepos
  /\ List.length (archived (splitArchived orgRepos))
     + List.length (valid (splitArchived orgRepos))
     = List.length orgRepos.
Proof.
  unfold splitArchived. rewrite fold_archiveStep. simpl.
  split; [reflexivity|]. split; [reflexivity|]. apply filter_length.
Qed.

(** X16.  The run is refused for want of repositories exactly when the
    listing holds no repository other than ".github"; otherwise it goes on
    with the listing less ".github", in listing order, archived
    repositories included. *)
Theorem requireRepos_refuses_empty_listing (listing : list Repo.t) :
  (requireRepos (orgReposOf listing) = Thrown
   <-> Forall (fun repo => Repo.name repo = ".github") listing)
  /\ (requireRepos (orgReposOf listing) <> Thrown ->
      requireRepos (orgReposOf listing)
      = Returned (filter (fun repo => negb (Repo.name repo =? ".github"))
                    listing)).
Proof.
  unfold requireRepos, orgReposOf. split.
  - induction listing as [|repo listing IH]; simpl.
    + split; [constructor|reflexivity].
    + destruct (String.eqb_spec (Repo.name repo) ".github") as [E|E]; simpl.
      * rewrite IH. split; [now constructor|].
        intros H. now inversion H.
      * split; [discriminate|]. intros H. inversion H. contradiction.
  - destruct (Nat.eqb _ 0); [congruence|reflexivity].
Qed.

Lemma requireRepos_refuses_empty_listing_witness :
  let listing := [ {| Repo.name := ".github"; Repo.owner := "org";
                      Repo.archived := false |};
                   {| Repo.name := "old"; Repo.owner := "org";
                      Repo.archived := true |} ] in
  requireRepos (orgReposOf listing)
  = Returned [ {| Repo.name := "old"; Repo.owner := "org";
                  Repo.archived := true |} ].
Proof.
  intros listing.
  apply (proj2 (requireRepos_refuses_empty_listing listing)).
  discriminate.
Defined.

(** ** Every repository is counted *)

Lemma count_updates
  (packageJson : string -> option string -> option Npm.Metadata)
  (jobs : list (string * Response)) :
  List.length (filter isUpdateMaps (List.concat (map (jobOf packageJson) jobs)))
  = List.length (filter (succeeded packageJson) jobs).
Proof.
  unfold succeeded.
  induction jobs as [|j jobs IH]; simpl; [reflexivity|].
  rewrite filter_app, length_app, IH.
  destruct (failed packageJson j) eqn:E; simpl.
  - now rewrite (job_failed _ _ E).
  - destruct (job_succeeded _ _ E) as [res [-> _]]. reflexivity.
Qed.

Lemma queuedJobs_requestsOf
  (packageJson : string -> option string -> option Npm.Metadata)
  (requestSbom : string -> string -> Response) (validOrgRepos : list Repo.t) :
  queuedJobs packageJson requestSbom validOrgRepos
  = map (jobOf packageJson) (requestsOf requestSbom validOrgRepos).
Proof.
  unfold queuedJobs, requestsOf, jobOf. rewrite map_map. reflexivity.
Qed.

(** X17.  When the queue has run every job of the repositories that are not
    archived, in whatever interleaving, each repository of the organisation
    has been counted once, as scanned, failed or archived; and no more
    repositories are counted as affected than were scanned. *)
Theorem every_repository_is_counted_once
  (licenseBlacklist ignorePackagesRegex : list string)
  (regExpTest : string -> string -> bool)
  (packageJson : string -> option string -> option Npm.Metadata)
  (requestSbom : string -> string -> Response)
  (orgRepos : list Repo.t) (schedule : list Action) :
  Interleaved
    (queuedJobs packageJson requestSbom (valid (splitArchived orgRepos)))
    schedule ->
  let st := run licenseBlacklist ignorePackagesRegex regExpTest schedule
              initialState in
  nScanned st + nFailed st + List.length (archived (splitArchived orgRepos))
  = List.length orgRepos
  /\ nAffected st <= nScanned st.
Proof.
  intros Hsched st. subst st.
  rewrite queuedJobs_requestsOf in Hsched.
  set (jobs := requestsOf requestSbom (valid (splitArchived orgRepos))) in *.
  apply Interleaved_Permutation in Hsched.
  destruct (run_facts licenseBlacklist ignorePackagesRegex regExpTest
              schedule initialState) as (Hf & Hs & _).
  pose proof (run_affected_le licenseBlacklist ignorePackagesRegex regExpTest
                schedule initialState) as Ha.
  destruct (count_jobs packageJson jobs) as [Cf Cs].
  pose proof (count_updates packageJson jobs) as Cu.
  rewrite (Permutation_length (filter_Permutation isIncFailed Hsched)) in Hf.
  rewrite (Permutation_length (filter_Permutation isIncScanned Hsched)) in Hs.
  rewrite (Permutation_length (filter_Permutation isUpdateMaps Hsched)) in Ha.
  simpl in Hf, Hs, Ha.
  assert (Hjobs : List.length (filter (failed packageJson) jobs)
                  + List.length (filter (succeeded packageJson) jobs)
                  = List.length (valid (splitArchived orgRepos))).
  { unfold succeeded. rewrite filter_length. unfold jobs, requestsOf.
    apply length_map. }
  assert (Hsplit : List.length (archived (splitArchived orgRepos))
                   + List.length (valid (splitArchived orgRepos))
                   = List.length orgRepos).
  { unfold splitArchived. rewrite fold_archiveStep. simpl. apply filter_length. }
  split; lia.
Qed.

Lemma every_repository_is_counted_once_witness :
  let requestSbom (owner name : string) :=
    match find (fun j : string * Response => fst j =? name) brokenAndApp with
    | Some j => snd j
    | None => RequestFailed
    end in
  let repo name archived :=
    {| Repo.name := name; Repo.owner := "org"; Repo.archived := archived |} in
  let orgRepos := [repo "old" true; repo "broken" false; repo "app" false] in
  let schedule := [IncScanned; IncFailed; UpdateMaps appResult] in
  let st := run ["GPL-3.0"] [] (fun _ _ => false) schedule initialState in
  nScanned st + nFailed st + 1 = 3 /\ nAffected st <= nScanned st.
Proof.
  intros requestSbom repo orgRepos schedule st.
  apply (every_repository_is_counted_once ["GPL-3.0"] [] (fun _ _ => false)
           (fun _ _ => None) requestSbom orgRepos).
  exact (Interleaved_step [[IncFailed]] [] IncScanned [UpdateMaps appResult]
           (Interleaved_step [] [[UpdateMaps appResult]] IncFailed []
              (Interleaved_step [[]] [] (UpdateMaps appResult) []
                 (Interleaved_done
                    (Forall_cons _ eq_refl
                       (Forall_cons _ eq_refl (Forall_nil _))))))).
Defined.

(** ** The counters of the report *)

Lemma snd_mapAccum {A B S : Type} (f : S -> A -> B * S) (l : list A) :
  forall s, snd (mapAccum f s l) = fold_left (fun s a => snd (f s a)) l s.
Proof.
  induction l as [|a l IH]; intros s; simpl; [reflexivity|].
  destruct (f s a) as [b s1] eqn:E. specialize (IH s1).
  destruct (mapAccum f s1 l) as [bs s2]. simpl in *. exact IH.
Qed.

Lemma fold_left_flat_map {A B S : Type} (f : S -> B -> S) (g : A -> list B)
  (l : list A) :
  forall s,
    fold_left f (flat_map g l) s
    = fold_left (fun s a => fold_left f (g a) s) l s.
Proof.
  induction l as [|a l IH]; intros s; simpl; [reflexivity|].
  now rewrite fold_left_app, IH.
Qed.

Lemma fold_left_ext_eq {A S : Type} (f g : S -> A -> S) (l : list A) :
  (forall s a, f s a = g s a) ->
  forall s, fold_left f l s = fold_left g l s.
Proof.
  intros H. induction l as [|a l IH]; intros s; simpl; [reflexivity|].
  now rewrite H, IH.
Qed.

Section MarkdownFacts.

Variable orgUrl : string.

Lemma snd_renderRepo (stats : Stats) (entry : Mapped.t) :
  snd (renderRepo orgUrl stats entry) = tally stats entry.
Proof. reflexivity. Qed.

Lemma snd_renderVersion (stats : Stats) (e : Out.VersionEntry) :
  snd (renderVersion orgUrl stats e) = fold_left tally (Out.repos e) stats.
Proof.
  unfold renderVersion.
  pose proof (snd_mapAccum (renderRepo orgUrl) (Out.repos e) stats) as H.
  destruct (mapAccum _ _ _) as [lines stats']. simpl in *. rewrite H.
  apply fold_left_ext_eq. intros. apply snd_renderRepo.
Qed.

Lemma snd_renderLicense (stats : Stats) (e : Out.LicenseEntry) :
  snd (renderLicense orgUrl stats e)
  = fold_left tally (flat_map Out.repos (Out.versions e)) stats.
Proof.
  unfold renderLicense.
  pose proof (snd_mapAccum (renderVersion orgUrl) (Out.versions e) stats) as H.
  destruct (mapAccum _ _ _) as [versions stats']. simpl in *. rewrite H.
  rewrite fold_left_flat_map.
  apply fold_left_ext_eq. intros. apply snd_renderVersion.
Qed.

Lemma snd_renderName (stats : Stats) (e : Out.NameEntry) :
  snd (renderName orgUrl stats e)
  = fold_left tally
      (flat_map (fun le => flat_map Out.repos (Out.versions le))
                (Out.licenses e))
      stats.
Proof.
  unfold renderName.
  pose proof (snd_mapAccum (renderLicense orgUrl) (Out.licenses e) stats) as H.
  destruct (mapAccum _ _ _) as [licenses stats']. simpl in *. rewrite H.
  rewrite fold_left_flat_map.
  apply fold_left_ext_eq. intros. apply snd_renderLicense.
Qed.

Lemma snd_generateMDFromPkgs (problems : Problems) (c : PkgsCategory)
  (stats : Stats) :
  snd (generateMDFromPkgs orgUrl problems c stats)
  = fold_left tally
      (outEntries match c with
                  | blacklisted => blacklistPkgs problems
                  | missing => noLicensePkgs problems
                  end)
      stats.
Proof.
  unfold generateMDFromPkgs, outEntries.
  match goal with
  | |- context [mapAccum ?f ?s ?l] =>
      pose proof (snd_mapAccum f l s) as H;
      destruct (mapAccum f s l) as [rows stats']
  end.
  simpl in *. rewrite H, fold_left_flat_map.
  apply fold_left_ext_eq. intros. apply snd_renderName.
Qed.

Lemma snd_mdProblemsOf (problems : Problems) :
  snd (mdProblemsOf orgUrl problems)
  = fold_left tally (reportedEntries problems) noStats.
Proof.
  unfold mdProblemsOf, reportedEntries. rewrite fold_left_app.
  pose proof (snd_generateMDFromPkgs problems blacklisted noStats) as H1.
  destruct (generateMDFromPkgs orgUrl problems blacklisted noStats)
    as [md1 s1].
  simpl in H1.
  assert (E1 : (if Nat.ltb 0 (List.length (blacklistPkgs problems))
                then ([md1], s1) else ([], noStats))
               = (if Nat.ltb 0 (List.length (blacklistPkgs problems))
                  then [md1] else [],
                  fold_left tally (outEntries (blacklistPkgs problems)) noStats)).
  { destruct (blacklistPkgs problems); simpl; [reflexivity|now rewrite H1]. }
  rewrite E1. clear E1 H1.
  set (stats1 := fold_left tally (outEntries (blacklistPkgs problems)) noStats).
  pose proof (snd_generateMDFromPkgs problems missing stats1) as H2.
  destruct (generateMDFromPkgs orgUrl problems missing stats1) as [md2 s2].
  simpl in H2.
  destruct (noLicensePkgs problems); simpl; [reflexivity|].
  simpl in H2. exact H2.
Qed.

End MarkdownFacts.

Lemma setAdd_facts (s : string) (l : list string) :
  (NoDup l -> NoDup (setAdd s l))
  /\ (forall r, In r (setAdd s l) <-> r = s \/ In r l).
Proof.
  unfold setAdd. destruct (setHas s l) eqn:E.
  - apply setHas_In in E. split; [trivial|].
    intros r. split; [now right|]. intros [->|H]; assumption.
  - apply setHas_false in E. split.
    + intros Hnd. now apply NoDup_snoc.
    + intros r. rewrite in_app_iff. simpl. intuition.
Qed.

Lemma fold_tally (entries : list Mapped.t) :
  forall stats,
    let stats' := fold_left tally entries stats in
    nTransitiveDeps stats'
    = nTransitiveDeps stats
      + List.length (filter Mapped.isTransitiveDep entries)
    /\ nDirectDeps stats'
       = nDirectDeps stats + List.length (filter isDirectEntry entries)
    /\ (NoDup (reposWithDirectDeps stats) ->
        NoDup (reposWithDirectDeps stats'))
    /\ (forall r, In r (reposWithDirectDeps stats')
                  <-> In r (reposWithDirectDeps stats)
                      \/ exists e, In e entries
                                   /\ Mapped.isTransitiveDep e = false
                                   /\ Mapped.repo e = r).
Proof.
  induction entries as [|e entries IH]; intros stats; cbv zeta.
  - simpl. repeat split; try lia; auto.
    intros [H|[e [[] _]]]. exact H.
  - cbn [fold_left filter]. destruct (IH (tally stats e)) as (Ht & Hd & Hnd & Hin).
    unfold isDirectEntry at 1. unfold tally in Ht, Hd, Hnd, Hin.
    destruct (Mapped.isTransitiveDep e) eqn:E; simpl in *.
    + split; [unfold tally; rewrite E; simpl; rewrite Ht; lia|].
      split; [unfold tally; rewrite E; simpl; rewrite Hd; lia|].
      split; [unfold tally; rewrite E; exact Hnd|].
      intros r. unfold tally. rewrite E. rewrite Hin. split.
      * intros [H|[x [Hx Hr]]]; [now left|right; exists x; auto].
      * intros [H|[x [[<-|Hx] [Hx1 Hx2]]]]; [now left|congruence|].
        right. exists x. auto.
    + destruct (setAdd_facts (Mapped.repo e) (reposWithDirectDeps stats))
        as [Hadd Hmem].
      split; [unfold tally; rewrite E; simpl; rewrite Ht; lia|].
      split; [unfold tally; rewrite E; simpl; rewrite Hd; lia|].
      split; [unfold tally; rewrite E; intros H; apply Hnd, Hadd, H|].
      intros r. unfold tally. rewrite E. rewrite Hin, Hmem. split.
      * intros [[->|H]|[x [Hx Hr]]];
          [right; exists e; auto|now left|right; exists x; auto].
      * intros [H|[x [[<-|Hx] [Hx1 Hx2]]]];
          [left; now right|left; now left|].
        right. exists x. auto.
Qed.

(** X18.  Rendering the report counts every entry of the two arrays once,
    as transitive or as direct; the set of repositories with direct
    dependency problems holds, without repetition, exactly the repositories
    of the entries that are direct. *)
Theorem report_counts_every_entry (orgUrl : string) (problems : Problems) :
  let stats := snd (mdProblemsOf orgUrl problems) in
  let entries := reportedEntries problems in
  nTransitiveDeps stats = List.length (filter Mapped.isTransitiveDep entries)
  /\ nDirectDeps stats = List.length (filter isDirectEntry entries)
  /\ nTransitiveDeps stats + nDirectDeps stats = List.length entries
  /\ NoDup (reposWithDirectDeps stats)
  /\ (forall r, In r (reposWithDirectDeps stats)
                <-> exists e, In e entries
                              /\ Mapped.isTransitiveDep e = false
                              /\ Mapped.repo e = r).
Proof.
  intros stats entries. subst stats entries. rewrite snd_mdProblemsOf.
  destruct (fold_tally (reportedEntries problems) noStats)
    as (Ht & Hd & Hnd & Hin).
  cbv zeta in *. simpl in Ht, Hd.
  split; [exact Ht|]. split; [exact Hd|]. split.
  - rewrite Ht, Hd. unfold isDirectEntry. apply filter_length.
  - split; [apply Hnd; constructor|].
    intros r. rewrite Hin. simpl. split; [intros [[]|H]; exact H|now right].
Qed.

(** ** The report and the maps *)

Lemma map_flat_map {A B C : Type} (f : B -> C) (g : A -> list B)
  (l : list A) :
  map f (flat_map g l) = flat_map (fun a => map f (g a)) l.
Proof.
  induction l as [|a l IH]; simpl; [reflexivity|].
  now rewrite map_app, IH.
Qed.

Lemma outEntries_outFiled (out : list Out.NameEntry) :
  outEntries out = map snd (outFiled out).
Proof.
  unfold outEntries, outFiled. rewrite map_flat_map.
  apply flat_map_ext. intros ne. rewrite map_flat_map.
  apply flat_map_ext. intros le. rewrite map_flat_map.
  apply flat_map_ext. intros ve. rewrite map_map. simpl.
  symmetry. apply map_id.
Qed.

Lemma storeRepos_mapFiled (m : PackageDataMap) :
  storeRepos m = map (fun q : Filed => Mapped.repo (snd q)) (mapFiled m).
Proof.
  unfold storeRepos, mapFiled, gather, gatherKeyed. rewrite map_flat_map.
  apply flat_map_ext. intros [name byLicense]. rewrite map_flat_map.
  apply flat_map_ext. intros [license byVersion]. rewrite map_flat_map.
  apply flat_map_ext. intros [version repos]. simpl.
  rewrite map_map. reflexivity.
Qed.

Lemma repos_of_arraifyMap (localeCompare : string -> string -> comparison)
  (m : PackageDataMap) :
  Permutation (map Mapped.repo (outEntries (arraifyMap localeCompare m)))
    (storeRepos m).
Proof.
  rewrite outEntries_outFiled, storeRepos_mapFiled, map_map.
  apply Permutation_map, outFiled_arraifyMap.
Qed.

(** X19.  The direct and transitive problems the report counts add up to
    the number of entries filed in the two maps, and every repository it
    lists as having direct problems is a repository filed in one of them. *)
Theorem report_counts_what_was_filed (orgUrl : string)
  (localeCompare : string -> string -> comparison) (st : State) :
  let stats := snd (mdProblemsOf orgUrl (problemsOf localeCompare st)) in
  nTransitiveDeps stats + nDirectDeps stats = List.length (filedRepos st)
  /\ (forall r, In r (reposWithDirectDeps stats) -> In r (filedRepos st)).
Proof.
  intros stats. subst stats. rewrite snd_mdProblemsOf.
  set (problems := problemsOf localeCompare st).
  destruct (fold_tally (reportedEntries problems) noStats)
    as (Ht & Hd & _ & Hin).
  cbv zeta in *. simpl in Ht, Hd.
  assert (Hperm : Permutation (map Mapped.repo (reportedEntries problems))
                    (filedRepos st)).
  { unfold reportedEntries, filedRepos, problems, problemsOf. simpl.
    rewrite map_app. apply Permutation_app; apply repos_of_arraifyMap. }
  split.
  - rewrite Ht, Hd, <- (Permutation_length Hperm), length_map.
    unfold isDirectEntry. apply filter_length.
  - intros r Hr. apply Hin in Hr as [[]|[e [He [_ <-]]]].
    apply (Permutation_in _ Hperm). now apply in_map.
Qed.

(** ** When there is nothing to export *)

Lemma length_arraifyMap (localeCompare : string -> string -> comparison)
  (m : PackageDataMap) :
  List.length (arraifyMap localeCompare m) = List.length m.
Proof.
  unfold arraifyMap.
  rewrite (Permutation_length (sortBy_Permutation_any _ _)).
  apply length_map.
Qed.

Lemma concat_not_empty (sep : string) (c : Ascii.ascii) (s : string)
  (rest : list string) :
  String.concat sep (String c s :: rest) <> "".
Proof. destruct rest; simpl; discriminate. Qed.

Lemma generateMDFromPkgs_not_empty (orgUrl : string) (problems : Problems)
  (c : PkgsCategory) (stats : Stats) :
  exists a s, fst (generateMDFromPkgs orgUrl problems c stats) = String a s.
Proof.
  unfold generateMDFromPkgs.
  destruct (mapAccum _ _ _) as [rows stats']. simpl. eauto.
Qed.

Lemma mdProblemsOf_empty_iff (orgUrl : string) (problems : Problems) :
  fst (mdProblemsOf orgUrl problems) = ""
  <-> blacklistPkgs problems = [] /\ noLicensePkgs problems = [].
Proof.
  unfold mdProblemsOf.
  destruct (generateMDFromPkgs_not_empty orgUrl problems blacklisted noStats)
    as (a1 & s1 & E1).
  destruct (generateMDFromPkgs orgUrl problems blacklisted noStats)
    as [md1 st1].
  simpl in E1. subst md1.
  destruct (blacklistPkgs problems) as [|b bs]; cbn [List.length Nat.ltb Nat.leb].
  - destruct (generateMDFromPkgs_not_empty orgUrl problems missing noStats)
      as (a2 & s2 & E2).
    destruct (generateMDFromPkgs orgUrl problems missing noStats)
      as [md2 st2].
    simpl in E2. subst md2.
    destruct (noLicensePkgs problems) as [|n ns];
      cbn [List.length Nat.ltb Nat.leb].
    + simpl. split; auto.
    + cbn [app fst]. split; [|intros [_ H]; discriminate].
      intros H. now apply concat_not_empty in H.
  - destruct (generateMDFromPkgs_not_empty orgUrl problems missing st1)
      as (a2 & s2 & E2).
    destruct (generateMDFromPkgs orgUrl problems missing st1) as [md2 st2].
    split; [|intros [H _]; discriminate].
    destruct (noLicensePkgs problems) as [|n ns];
      cbn [List.length Nat.ltb Nat.leb app fst]; intros H;
      now apply concat_not_empty in H.
Qed.

(** X20.  After any sequence of queue steps from the initial state, the
    text to export is empty, so that nothing is exported, exactly when no
    package was filed in either map. *)
Theorem nothing_to_export_iff_nothing_filed
  (licenseBlacklist ignorePackagesRegex : list string)
  (regExpTest : string -> string -> bool)
  (localeCompare : string -> string -> comparison) (orgUrl : string)
  (schedule : list Action) :
  let st := run licenseBlacklist ignorePackagesRegex regExpTest schedule
              initialState in
  fst (mdProblemsOf orgUrl (problemsOf localeCompare st)) = ""
  <-> filedRepos st = [].
Proof.
  intros st.
  destruct (run_wellFormed licenseBlacklist ignorePackagesRegex regExpTest
              schedule) as [Hb Hn].
  fold st in Hb, Hn.
  rewrite mdProblemsOf_empty_iff, (filedRepos_nil _ Hb Hn).
  unfold problemsOf. simpl.
  assert (Hnil : forall m, arraifyMap localeCompare m = [] <-> m = []).
  { intros m. split; [|intros ->; reflexivity].
    intros H. apply (f_equal (@List.length _)) in H.
    rewrite length_arraifyMap in H. now destruct m. }
  now rewrite !Hnil.
Qed.

(** ** The export decision, exactly *)

(** X21.  The export is skipped exactly when there is a previous comment
    with a non-empty body whose digest equals that of the new text; with no
    previous comment, or an empty one, the text is exported. *)
Theorem export_skipped_iff_digests_agree (md5Base64 : string -> string)
  (existingBody : option string) (mdProblems : string) :
  exportStep md5Base64 existingBody mdProblems = SkipExport
  <-> exists body, existingBody = Some body /\ body <> ""
                   /\ md5Base64 body = md5Base64 mdProblems.
Proof.
  unfold exportStep, hasDiffs. destruct existingBody as [body|]; simpl.
  - destruct (String.eqb_spec body "") as [->|Hbody]; simpl.
    + split; [discriminate|]. intros (b & [= <-] & Hb & _). contradiction.
    + destruct (String.eqb_spec (md5Base64 body) (md5Base64 mdProblems))
        as [E|E]; simpl.
      * split; [|reflexivity]. intros _. exists body. auto.
      * split; [discriminate|]. intros (b & [= <-] & _ & Hd). contradiction.
  - split; [discriminate|]. intros (b & H & _). discriminate.
Qed.
